(** * The block-unwind prototype of charly-vm, as a Rocq state machine

    Shallow embedding of [experiments/block-unwind-prototype.py]: a small
    stack machine whose control-transfer operations (set up catch / defer,
    unwind, defercontinue, throw, call, ret) share one unwinding routine,
    [unwind_block].

    Conventions of the embedding.
    - The three Python lists used as stacks ([data_stack], [function_stack],
      [block_stack]) are kept top first: the head of the Rocq list is the
      Python element at index [-1]; [append] is a cons, [pop()] removes the
      head.
    - A frame is the Python list [[return_address, locals, top_block]].  The
      frame list itself is never mutated, but its [locals] list is, and a
      block keeps a reference to the frame that created it.  Locals therefore
      live in a store and a frame holds the index of its locals; every call
      allocates a fresh index, so that in a run two frame values are the same
      Python object exactly when they are equal in Rocq.
    - Python's [==] and [!=] on frames (lists) and blocks (tuples) compare by
      structure, not by identity: [frame_eqb] and [block_eqb] below read the
      locals through the store and descend into markers, parents and owners.
      The comparison is total here; the interpreter's recursion limit on very
      deep structures is left out.
    - A raised Python exception ends the run; it is a [Raise] result.
    - Standard input is the list of integers the user types; standard output
      is the list of strings written.  The timing code around each operation
      and the message printed after the loop are left out. *)

From Stdlib Require Import ZArith List String Ascii Bool Lia PeanoNat.
From Stdlib Require Import DecimalString.
Import ListNotations.
Local Open Scope string_scope.
Local Open Scope list_scope.
Local Open Scope Z_scope.

(** ** Python values *)

Inductive value : Type :=
| VInt (z : Z)
| VStr (s : string)
| VBool (b : bool)
| VNone.

(** The integer a value stands for where Python accepts an int: bools are
    ints. *)
Definition as_int (v : value) : option Z :=
  match v with
  | VInt z => Some z
  | VBool true => Some 1
  | VBool false => Some 0
  | _ => None
  end.

(** [lhs == rhs] *)
Definition py_eq (a b : value) : bool :=
  match a, b with
  | VStr x, VStr y => String.eqb x y
  | VNone, VNone => true
  | _, _ =>
      match as_int a, as_int b with
      | Some x, Some y => Z.eqb x y
      | _, _ => false
      end
  end.

(** [if value:] *)
Definition truthy (v : value) : bool :=
  match v with
  | VInt z => negb (Z.eqb z 0)
  | VStr s => negb (String.eqb s "")
  | VBool b => b
  | VNone => false
  end.

(** [f"{value}"] *)
Definition py_str (v : value) : string :=
  match v with
  | VInt z => NilZero.string_of_int (Z.to_int z)
  | VStr s => s
  | VBool true => "True"
  | VBool false => "False"
  | VNone => "None"
  end.

Inductive exn : Type :=
| Exception (msg : string)
| IndexError
| TypeError
| ValueError.

Inductive result (A : Type) : Type :=
| Ok (a : A)
| Raise (e : exn).
Arguments Ok {A} a.
Arguments Raise {A} e.

Definition bind {A B : Type} (r : result A) (k : A -> result B) : result B :=
  match r with
  | Ok a => k a
  | Raise e => Raise e
  end.

Notation "x <- r ;; k" := (bind r (fun x => k))
  (at level 61, r at next level, right associativity).

(** ** Python list access *)

(** Position designated by index [i] in a list of length [n]: negative
    indices count from the end. *)
Definition py_pos (n : nat) (i : Z) : option nat :=
  if 0 <=? i then
    if i <? Z.of_nat n then Some (Z.to_nat i) else None
  else
    if - Z.of_nat n <=? i then Some (Z.to_nat (Z.of_nat n + i)) else None.

(** [l[i]] where [i] is any value *)
Definition py_getitem {A : Type} (l : list A) (i : value) : result A :=
  match as_int i with
  | None => Raise TypeError
  | Some z =>
      match py_pos (List.length l) z with
      | None => Raise IndexError
      | Some k =>
          match nth_error l k with
          | Some a => Ok a
          | None => Raise IndexError
          end
      end
  end.

Fixpoint replace_nth {A : Type} (k : nat) (a : A) (l : list A) : list A :=
  match l, k with
  | [], _ => []
  | _ :: t, O => a :: t
  | h :: t, S k' => h :: replace_nth k' a t
  end.

(** [l[i] = a] *)
Definition py_setitem {A : Type} (l : list A) (i : value) (a : A)
  : result (list A) :=
  match as_int i with
  | None => Raise TypeError
  | Some z =>
      match py_pos (List.length l) z with
      | None => Raise IndexError
      | Some k => Ok (replace_nth k a l)
      end
  end.

(** [lhs + rhs] *)
Definition py_add (lhs rhs : value) : result value :=
  match lhs, rhs with
  | VStr x, VStr y => Ok (VStr (String.append x y))
  | _, _ =>
      match as_int lhs, as_int rhs with
      | Some x, Some y => Ok (VInt (x + y))
      | _, _ => Raise TypeError
      end
  end.

(** ** Instruction set *)

Definition OP_LOAD : Z := 1.
Definition OP_ADD : Z := 2.
Definition OP_PRINT : Z := 3.
Definition OP_JMP : Z := 4.
Definition OP_JMPIF : Z := 5.
Definition OP_CMP : Z := 6.
Definition OP_SETUPCATCH : Z := 7.
Definition OP_SETUPDEFER : Z := 8.
Definition OP_UNWIND : Z := 9.
Definition OP_DEFERCONTINUE : Z := 10.
Definition OP_THROW : Z := 11.
Definition OP_CALL : Z := 12.
Definition OP_RET : Z := 13.
Definition OP_WRITELOCAL : Z := 14.
Definition OP_LOADLOCAL : Z := 15.
Definition OP_GETNUMBER : Z := 16.
Definition OP_EXIT : Z := 17.
Definition OP_ABORT : Z := 18.
Definition OP_DUP : Z := 19.

Definition opcode_names : list string :=
  [ "-"; "load"; "add"; "print"; "jmp"; "jmpif"; "cmp"; "setupcatch";
    "setupdefer"; "unwind"; "defercontinue"; "throw"; "call"; "ret";
    "writelocal"; "loadlocal"; "getnumber"; "exit"; "abort"; "dup" ].

(** ** Frames and blocks *)

Inductive reason : Type :=
| UNWIND_EXCEPTION
| UNWIND_RETURN.

(** [Frame return_address locals top_block] is the list pushed by [OP_CALL];
    [Block block_type handler_offset continue_offset parent_block
    active_frame] is the tuple built by [push_block]. *)
#[local] Unset Elimination Schemes.
Inductive frame : Type :=
| Frame (return_address : value) (locals : nat) (block_marker : option block)
with block : Type :=
| Block (block_type : string) (handler_offset : Z) (continue_offset : value)
        (parent_block : option block) (active_frame : frame).
#[local] Set Elimination Schemes.

Definition return_address (f : frame) : value :=
  match f with Frame r _ _ => r end.
Definition locals (f : frame) : nat :=
  match f with Frame _ l _ => l end.
Definition block_marker (f : frame) : option block :=
  match f with Frame _ _ m => m end.

Definition block_type (b : block) : string :=
  match b with Block t _ _ _ _ => t end.
Definition handler_offset (b : block) : Z :=
  match b with Block _ h _ _ _ => h end.
Definition continue_offset (b : block) : value :=
  match b with Block _ _ c _ _ => c end.
Definition parent_block (b : block) : option block :=
  match b with Block _ _ _ p _ => p end.
Definition active_frame (b : block) : frame :=
  match b with Block _ _ _ _ f => f end.

(** The store of locals lists: entry [k] is the list owned by the frame whose
    [locals] field is [k]. *)
Definition store : Type := list (list value).

Definition deref (st : store) (k : nat) : list value := nth k st [].

Fixpoint list_eq (l1 l2 : list value) : bool :=
  match l1, l2 with
  | [], [] => true
  | a :: t1, b :: t2 => py_eq a b && list_eq t1 t2
  | _, _ => false
  end.

(** Python [==] on frames and on blocks. *)
Fixpoint frame_eqb (st : store) (f g : frame) {struct f} : bool :=
  match f, g with
  | Frame r1 l1 m1, Frame r2 l2 m2 =>
      py_eq r1 r2 && list_eq (deref st l1) (deref st l2) &&
      match m1, m2 with
      | None, None => true
      | Some b1, Some b2 => block_eqb st b1 b2
      | _, _ => false
      end
  end
with block_eqb (st : store) (b c : block) {struct b} : bool :=
  match b, c with
  | Block t1 h1 c1 p1 f1, Block t2 h2 c2 p2 f2 =>
      String.eqb t1 t2 && Z.eqb h1 h2 && py_eq c1 c2 &&
      match p1, p2 with
      | None, None => true
      | Some q1, Some q2 => block_eqb st q1 q2
      | _, _ => false
      end &&
      frame_eqb st f1 f2
  end.

(** [marker == top_block] where either side may be [None] *)
Definition oblock_eqb (st : store) (m1 m2 : option block) : bool :=
  match m1, m2 with
  | None, None => true
  | Some b1, Some b2 => block_eqb st b1 b2
  | _, _ => false
  end.

(** ** Machine state *)

Record state : Type := mkState {
  data_stack : list value;
  function_stack : list frame;
  block_stack : list block;
  unwind_reason : option reason;
  instruction_ptr : value;
  exit_code : value;
  heap : store;
  stdin : list Z;
  stdout : list string
}.

Definition set_data (d : list value) (s : state) : state :=
  mkState d (function_stack s) (block_stack s) (unwind_reason s)
          (instruction_ptr s) (exit_code s) (heap s) (stdin s) (stdout s).
Definition set_frames (fs : list frame) (s : state) : state :=
  mkState (data_stack s) fs (block_stack s) (unwind_reason s)
          (instruction_ptr s) (exit_code s) (heap s) (stdin s) (stdout s).
Definition set_blocks (bs : list block) (s : state) : state :=
  mkState (data_stack s) (function_stack s) bs (unwind_reason s)
          (instruction_ptr s) (exit_code s) (heap s) (stdin s) (stdout s).
Definition set_reason (r : option reason) (s : state) : state :=
  mkState (data_stack s) (function_stack s) (block_stack s) r
          (instruction_ptr s) (exit_code s) (heap s) (stdin s) (stdout s).
Definition set_ip (ip : value) (s : state) : state :=
  mkState (data_stack s) (function_stack s) (block_stack s) (unwind_reason s)
          ip (exit_code s) (heap s) (stdin s) (stdout s).
Definition set_exit (c : value) (s : state) : state :=
  mkState (data_stack s) (function_stack s) (block_stack s) (unwind_reason s)
          (instruction_ptr s) c (heap s) (stdin s) (stdout s).
Definition set_heap (h : store) (s : state) : state :=
  mkState (data_stack s) (function_stack s) (block_stack s) (unwind_reason s)
          (instruction_ptr s) (exit_code s) h (stdin s) (stdout s).
Definition set_stdin (i : list Z) (s : state) : state :=
  mkState (data_stack s) (function_stack s) (block_stack s) (unwind_reason s)
          (instruction_ptr s) (exit_code s) (heap s) i (stdout s).
Definition set_stdout (o : list string) (s : state) : state :=
  mkState (data_stack s) (function_stack s) (block_stack s) (unwind_reason s)
          (instruction_ptr s) (exit_code s) (heap s) (stdin s) o.

(** The module-level initial values.  [user] is what the user will type, one
    integer per [OP_GETNUMBER]. *)
Definition initial_state (user : list Z) : state :=
  mkState [] [Frame (VStr "err") 0%nat None] [] None (VInt 0) (VInt 0)
          [[VInt 0; VInt 0; VInt 0; VInt 0]] user [].

(** ** The functions of the prototype *)

Section Machine.

(** The program: labels are strings starting with a dot, everything else is
    an opcode or an inline operand. *)
Variable code_memory : list value.

Definition incip (n : Z) (ip : Z) : value := VInt (ip + n).

Fixpoint index_from (x : value) (l : list value) (k : Z) : result Z :=
  match l with
  | [] => Raise ValueError
  | v :: t => if py_eq v x then Ok k else index_from x t (k + 1)
  end.

(** [code_memory.index(f".{label}")] *)
Definition resolve_label (label : value) : result Z :=
  index_from (VStr (String.append "." (py_str label))) code_memory 0.

(** The nearest block of the given type, scanning from the top. *)
Definition last_block (ty : string) (bs : list block) : option block :=
  find (fun b => String.eqb (block_type b) ty) bs.

Definition push_block (ty : string) (handler_label continue_label : value)
  (s : state) : result state :=
  let parent := last_block ty (block_stack s) in
  match function_stack s with
  | [] => Raise IndexError
  | active :: _ =>
      handler <- resolve_label handler_label ;;
      match continue_label with
      | VNone =>
          Ok (set_blocks (Block ty handler VNone parent active
                            :: block_stack s) s)
      | _ =>
          cont <- resolve_label continue_label ;;
          Ok (set_blocks (Block ty handler (VInt cont) parent active
                            :: block_stack s) s)
      end
  end.

(** [while top_block[4] != top_frame: function_stack.pop(); top_frame =
    function_stack[-1]]: the frames that are left, or [None] when the stack
    runs out and [function_stack[-1]] raises. *)
Fixpoint unwind_frames (st : store) (owner : frame) (fs : list frame)
  : option (list frame) :=
  match fs with
  | [] => None
  | f :: rest =>
      if frame_eqb st owner f then Some fs else unwind_frames st owner rest
  end.

(** [while len(block_stack) and block_stack[-1][4] == top_frame:
    block_stack.pop()] *)
Fixpoint pop_owned (st : store) (top_frame : frame) (bs : list block)
  : list block :=
  match bs with
  | [] => []
  | b :: rest =>
      if frame_eqb st (active_frame b) top_frame
      then pop_owned st top_frame rest else bs
  end.

(** [while len(block_stack) and block_stack[-1] != last_defer_block:
    block_stack.pop()] *)
Fixpoint pop_until (st : store) (target : block) (bs : list block)
  : list block :=
  match bs with
  | [] => []
  | b :: rest =>
      if block_eqb st b target then bs else pop_until st target rest
  end.

Definition unwind_block (s : state) : result state :=
  match block_stack s with
  | [] => Raise (Exception "block stack empty")
  | top_block :: below =>
  match function_stack s with
  | [] => Raise (Exception "function stack empty")
  | top_frame :: callers =>
  match unwind_reason s with
  | Some UNWIND_EXCEPTION =>
      match unwind_frames (heap s) (active_frame top_block)
                          (function_stack s) with
      | None => Raise IndexError
      | Some fs =>
          if String.eqb (block_type top_block) "catch" then
            Ok (set_ip (VInt (handler_offset top_block))
                 (set_reason None (set_blocks below (set_frames fs s))))
          else if String.eqb (block_type top_block) "defer" then
            Ok (set_ip (VInt (handler_offset top_block)) (set_frames fs s))
          else Raise (Exception "unexpected block type")
      end
  | Some UNWIND_RETURN =>
      match last_block "defer" (block_stack s) with
      | None =>
          Ok (set_frames callers
               (set_ip (return_address top_frame)
                 (set_blocks (pop_owned (heap s) top_frame (block_stack s))
                    s)))
      | Some last_defer_block =>
          if frame_eqb (heap s) (active_frame last_defer_block) top_frame
          then
            Ok (set_ip (VInt (handler_offset last_defer_block))
                 (set_blocks
                    (pop_until (heap s) last_defer_block (block_stack s)) s))
          else
            Ok (set_blocks (pop_owned (heap s) top_frame (block_stack s))
                 (set_frames callers
                   (set_reason None
                     (set_ip (return_address top_frame) s))))
      end
  | None => Raise (Exception "expected unwind reason")
  end
  end
  end.

(** ** One iteration of the fetch loop *)

(** [code_memory[instruction_ptr + k]], the instruction pointer being the
    integer [ip]. *)
Definition operand (ip k : Z) : result value :=
  py_getitem code_memory (VInt (ip + k)).

Definition nl : string := String (ascii_of_nat 10) EmptyString.

Definition op_load (ip : Z) (s : state) : result state :=
  v <- operand ip 1 ;;
  Ok (set_ip (incip 2 ip) (set_data (v :: data_stack s) s)).

Definition op_getnumber (ip : Z) (s : state) : result state :=
  match stdin s with
  | [] => Raise ValueError
  | n :: rest =>
      Ok (set_ip (incip 1 ip)
           (set_data (VInt n :: data_stack s)
             (set_stdin rest
               (set_stdout (stdout s ++ ["enter number: "]) s))))
  end.

Definition op_writelocal (ip : Z) (s : state) : result state :=
  offset <- operand ip 1 ;;
  match data_stack s with
  | [] => Raise IndexError
  | v :: rest =>
      match function_stack s with
      | [] => Raise IndexError
      | f :: _ =>
          l <- py_setitem (deref (heap s) (locals f)) offset v ;;
          Ok (set_ip (incip 2 ip)
               (set_heap (replace_nth (locals f) l (heap s))
                 (set_data rest s)))
      end
  end.

Definition op_setupcatch (ip : Z) (s : state) : result state :=
  h <- operand ip 1 ;;
  c <- operand ip 2 ;;
  s' <- push_block "catch" h c s ;;
  Ok (set_ip (incip 2 ip) s').

Definition op_setupdefer (ip : Z) (s : state) : result state :=
  h <- operand ip 1 ;;
  c <- operand ip 2 ;;
  s' <- push_block "defer" h c s ;;
  Ok (set_ip (incip 3 ip) s').

Definition op_jmp (ip : Z) (s : state) : result state :=
  l <- operand ip 1 ;;
  off <- resolve_label l ;;
  Ok (set_ip (VInt off) s).

Definition op_jmpif (ip : Z) (s : state) : result state :=
  match data_stack s with
  | [] => Raise IndexError
  | v :: rest =>
      if truthy v then
        l <- operand ip 1 ;;
        off <- resolve_label l ;;
        Ok (set_ip (VInt off) (set_data rest s))
      else Ok (set_ip (incip 2 ip) (set_data rest s))
  end.

Definition op_loadlocal (ip : Z) (s : state) : result state :=
  offset <- operand ip 1 ;;
  match function_stack s with
  | [] => Raise IndexError
  | f :: _ =>
      v <- py_getitem (deref (heap s) (locals f)) offset ;;
      Ok (set_ip (incip 2 ip) (set_data (v :: data_stack s) s))
  end.

Definition op_print (ip : Z) (s : state) : result state :=
  match data_stack s with
  | [] => Raise IndexError
  | v :: rest =>
      Ok (set_ip (incip 1 ip)
           (set_stdout
              (stdout s ++ [String.append "=> " (String.append (py_str v) nl)])
              (set_data rest s)))
  end.

Definition fresh_locals : list value :=
  [VInt 9999; VInt 9999; VInt 9999; VInt 9999].

Definition op_call (ip : Z) (s : state) : result state :=
  call_label <- operand ip 1 ;;
  call_offset <- resolve_label call_label ;;
  let top_block := hd_error (block_stack s) in
  Ok (set_ip (VInt call_offset)
       (set_frames
          (Frame (VInt (ip + 2)) (List.length (heap s)) top_block
             :: function_stack s)
          (set_heap (heap s ++ [fresh_locals]) s))).

Definition op_add (ip : Z) (s : state) : result state :=
  match data_stack s with
  | rhs :: lhs :: rest =>
      v <- py_add lhs rhs ;;
      Ok (set_ip (incip 1 ip) (set_data (v :: rest) s))
  | _ => Raise IndexError
  end.

Definition op_cmp (ip : Z) (s : state) : result state :=
  match data_stack s with
  | rhs :: lhs :: rest =>
      Ok (set_ip (incip 1 ip) (set_data (VBool (py_eq lhs rhs) :: rest) s))
  | _ => Raise IndexError
  end.

Definition op_unwind (s : state) : result state :=
  match block_stack s with
  | [] => Raise (Exception "empty block stack")
  | top_block :: below =>
      if String.eqb (block_type top_block) "catch" then
        Ok (set_blocks below (set_ip (continue_offset top_block) s))
      else if String.eqb (block_type top_block) "defer" then
        Ok (set_ip (VInt (handler_offset top_block)) s)
      else Raise (Exception "unexpected block type")
  end.

Definition op_defercontinue (s : state) : result state :=
  if (List.length (block_stack s) <? 2)%nat then
    Raise (Exception "empty block stack")
  else
    match block_stack s with
    | [] => Raise IndexError
    | top_block :: below =>
        match unwind_reason s with
        | Some _ => unwind_block (set_blocks below s)
        | None => Ok (set_ip (continue_offset top_block) (set_blocks below s))
        end
    end.

(** [top_block and active_frame[2] != top_block]: a block tuple is never
    empty, so [top_block] is false only when it is [None]. *)
Definition must_unwind (st : store) (active : frame) (bs : list block)
  : bool :=
  match bs with
  | [] => false
  | top_block :: _ =>
      negb (oblock_eqb st (block_marker active) (Some top_block))
  end.

Definition op_ret (s : state) : result state :=
  match function_stack s with
  | [] => Raise IndexError
  | active :: callers =>
      if must_unwind (heap s) active (block_stack s) then
        unwind_block (set_reason (Some UNWIND_RETURN) s)
      else
        Ok (set_ip (return_address active) (set_frames callers s))
  end.

Definition op_throw (s : state) : result state :=
  match last_block "catch" (block_stack s) with
  | None => Raise (Exception "no exception handler found")
  | Some _ => unwind_block (set_reason (Some UNWIND_EXCEPTION) s)
  end.

Definition op_dup (ip : Z) (s : state) : result state :=
  match data_stack s with
  | [] => Raise (Exception "empty stack")
  | v :: _ => Ok (set_ip (incip 1 ip) (set_data (v :: data_stack s) s))
  end.

Definition op_unexpected (opcode : value) : exn :=
  match py_getitem opcode_names opcode with
  | Ok name => Exception (String.append "unexpected opcode: " name)
  | Raise e => e
  end.

(** What one pass through the body of [while True] leaves behind. *)
Inductive outcome : Type :=
| Running (s : state)
| Exited (s : state)
| Crashed (e : exn).

Definition continue (r : result state) : outcome :=
  match r with
  | Ok s => Running s
  | Raise e => Crashed e
  end.

(** The [if]/[elif] chain on an opcode that compares equal to the integer
    [op]; [ip] is the instruction pointer as an integer. *)
Definition dispatch (opcode : value) (op ip : Z) (s : state) : outcome :=
  if op =? OP_LOAD then continue (op_load ip s)
  else if op =? OP_GETNUMBER then continue (op_getnumber ip s)
  else if op =? OP_WRITELOCAL then continue (op_writelocal ip s)
  else if op =? OP_SETUPCATCH then continue (op_setupcatch ip s)
  else if op =? OP_SETUPDEFER then continue (op_setupdefer ip s)
  else if op =? OP_JMP then continue (op_jmp ip s)
  else if op =? OP_JMPIF then continue (op_jmpif ip s)
  else if op =? OP_LOADLOCAL then continue (op_loadlocal ip s)
  else if op =? OP_PRINT then continue (op_print ip s)
  else if op =? OP_CALL then continue (op_call ip s)
  else if op =? OP_ADD then continue (op_add ip s)
  else if op =? OP_CMP then continue (op_cmp ip s)
  else if op =? OP_UNWIND then continue (op_unwind s)
  else if op =? OP_DEFERCONTINUE then continue (op_defercontinue s)
  else if op =? OP_RET then continue (op_ret s)
  else if op =? OP_THROW then continue (op_throw s)
  else if op =? OP_EXIT then
    match data_stack s with
    | [] => Crashed IndexError
    | v :: rest => Exited (set_exit v (set_data rest s))
    end
  else if op =? OP_ABORT then Crashed (Exception "internal error")
  else if op =? OP_DUP then continue (op_dup ip s)
  else Crashed (op_unexpected opcode).

Definition step (s : state) : outcome :=
  match as_int (instruction_ptr s) with
  | None => Crashed TypeError
  | Some ip =>
      match py_getitem code_memory (instruction_ptr s) with
      | Raise e => Crashed e
      | Ok opcode =>
          match opcode with
          | VStr _ => Running (set_ip (incip 1 ip) s)
          | _ =>
              match as_int opcode with
              | Some op => dispatch opcode op ip s
              | None => Crashed (op_unexpected opcode)
              end
          end
      end
  end.

Fixpoint run (fuel : nat) (s : state) : outcome :=
  match fuel with
  | O => Running s
  | S n =>
      match step s with
      | Running s' => run n s'
      | o => o
      end
  end.

(** States the machine passes through when started on [user]'s input. *)
Inductive reachable (user : list Z) : state -> Prop :=
| reach_init : reachable user (initial_state user)
| reach_step s s' :
    reachable user s -> step s = Running s' -> reachable user s'.

End Machine.

(** ** Notions used to state the properties *)

(** Nesting depth of a frame or block; equal objects have equal sizes. *)
Fixpoint frame_size (f : frame) : nat :=
  match f with
  | Frame _ _ m =>
      S (match m with None => 0 | Some b => block_size b end)
  end
with block_size (b : block) : nat :=
  match b with
  | Block _ _ _ p f =>
      S (match p with None => 0 | Some q => block_size q end + frame_size f)
  end.

(** The block stack is nested like the call stack: read from the top, it
    holds the blocks of the top frame, then those of its caller, and so on.
    A frame may own no block at all.  A frame that sits above the owners of
    all remaining blocks was created while those blocks were on the stack, so
    it is nested deeper than each of these owners. *)
Inductive aligned : list frame -> list block -> Prop :=
| aligned_nil fs : aligned fs []
| aligned_own f fs b bs :
    active_frame b = f -> aligned (f :: fs) bs -> aligned (f :: fs) (b :: bs)
| aligned_skip f fs bs :
    aligned fs bs ->
    Forall (fun b => (frame_size (active_frame b) < frame_size f)%nat) bs ->
    aligned (f :: fs) bs.

Definition known_type (b : block) : Prop :=
  block_type b = "catch" \/ block_type b = "defer".

(** What every state of a run satisfies. *)
Record well_formed (s : state) : Prop := {
  wf_aligned : aligned (function_stack s) (block_stack s);
  wf_types : Forall known_type (block_stack s);
  wf_fresh :
    Forall (fun f => (locals f < List.length (heap s))%nat) (function_stack s);
  wf_nodup : NoDup (function_stack s)
}.

(** The opcode the fetch loop is about to execute. *)
Definition fetches (code_memory : list value) (s : state) (op : Z) : Prop :=
  exists opcode,
    py_getitem code_memory (instruction_ptr s) = Ok opcode /\
    as_int opcode = Some op.

(** The state after [n] iterations, for runs that are known to get there. *)
Definition state_after (code_memory : list value) (n : nat) (s : state)
  : state :=
  match run code_memory n s with
  | Running s' => s'
  | Exited s' => s'
  | Crashed _ => s
  end.

(** Is there a block of the given type anywhere on the block stack? *)
Definition has_block (ty : string) (bs : list block) : bool :=
  existsb (fun b => String.eqb (block_type b) ty) bs.

Definition is_defer (b : block) : bool := String.eqb (block_type b) "defer".

(** What the body of a defer handler may do between its activation and its
    [OP_DEFERCONTINUE]: anything that leaves the call stack, the block stack
    and the unwind reason as they were. *)
Definition body_ran (s s' : state) : Prop :=
  function_stack s' = function_stack s /\
  block_stack s' = block_stack s /\
  unwind_reason s' = unwind_reason s.

(** Starting in [s], whose top block is a defer that has just been activated,
    each [OP_DEFERCONTINUE] activates the next block of [ds], in order,
    in the same frame and with the return still pending. *)
Fixpoint continues_through (code_memory : list value) (s : state)
  (ds : list block) : Prop :=
  match ds with
  | [] => True
  | d :: rest =>
      forall s1,
        body_ran s s1 -> fetches code_memory s1 OP_DEFERCONTINUE ->
        exists s2,
          step code_memory s1 = Running s2 /\
          instruction_ptr s2 = VInt (handler_offset d) /\
          hd_error (block_stack s2) = Some d /\
          function_stack s2 = function_stack s /\
          unwind_reason s2 = Some UNWIND_RETURN /\
          continues_through code_memory s2 rest
  end.

(** ** Programs *)

(** The program that the prototype ships with. *)
Definition sample_code_memory : list value :=
  [ VStr ".main";
      VInt OP_GETNUMBER;
      VInt OP_GETNUMBER;
      VInt OP_WRITELOCAL; VInt 1;
      VInt OP_WRITELOCAL; VInt 0;
      VInt OP_LOAD; VInt 42;
      VInt OP_WRITELOCAL; VInt 2;
      VInt OP_SETUPCATCH; VStr "main#L3"; VStr "main#L4";
      VInt OP_SETUPDEFER; VStr "main#L1"; VStr "main#L2";
      VInt OP_LOADLOCAL; VInt 0;
      VInt OP_LOADLOCAL; VInt 1;
      VInt OP_CALL; VStr "prevent_14";
      VInt OP_WRITELOCAL; VInt 2;
      VInt OP_UNWIND;
    VStr ".main#L1";
      VInt OP_LOADLOCAL; VInt 2;
      VInt OP_PRINT;
      VInt OP_DEFERCONTINUE;
    VStr ".main#L2";
      VInt OP_UNWIND;
    VStr ".main#L3";
      VInt OP_LOAD; VInt 3333;
      VInt OP_WRITELOCAL; VInt 2;
    VStr ".main#L4";
      VInt OP_LOADLOCAL; VInt 2;
      VInt OP_EXIT;
    VStr ".add";
      VInt OP_SETUPDEFER; VStr "add#L3"; VStr "add#L4";
      VInt OP_SETUPCATCH; VStr "add#L1"; VStr "add#L2";
      VInt OP_ADD;
      VInt OP_THROW;
    VStr ".add#L1";
      VInt OP_LOAD; VStr "inside add catch handler";
      VInt OP_PRINT;
      VInt OP_DUP;
      VInt OP_PRINT;
      VInt OP_RET;
    VStr ".add#L2";
      VInt OP_ABORT;
    VStr ".add#L3";
      VInt OP_LOAD; VStr "inside add defer block";
      VInt OP_PRINT;
      VInt OP_DEFERCONTINUE;
    VStr ".add#L4";
      VInt OP_ABORT;
    VStr ".prevent_14";
      VInt OP_SETUPDEFER; VStr "prevent_14#L1"; VStr "prevent_14#L2";
      VInt OP_CALL; VStr "add";
      VInt OP_WRITELOCAL; VInt 0;
      VInt OP_LOADLOCAL; VInt 0;
      VInt OP_LOAD; VInt 14;
      VInt OP_CMP;
      VInt OP_JMPIF; VStr "prevent_14#L3";
      VInt OP_LOADLOCAL; VInt 0;
      VInt OP_RET;
    VStr ".prevent_14#L1";
      VInt OP_LOAD; VStr "inside prevent 14 defer block";
      VInt OP_PRINT;
      VInt OP_DEFERCONTINUE;
    VStr ".prevent_14#L2";
      VInt OP_ABORT;
    VStr ".prevent_14#L3";
      VInt OP_THROW ].

(** A callee that throws into its caller's catch region. *)
Definition throw_across_code : list value :=
  [ VStr ".main";
      VInt OP_SETUPCATCH; VStr "h"; VStr "r";
      VInt OP_CALL; VStr "f";
    VStr ".r";
      VInt OP_LOAD; VInt 0;
      VInt OP_EXIT;
    VStr ".h";
      VInt OP_EXIT;
    VStr ".f";
      VInt OP_LOAD; VInt 42;
      VInt OP_THROW ].

(** A callee that returns out of a catch region, no defer anywhere. *)
Definition catch_return_code : list value :=
  [ VStr ".main";
      VInt OP_CALL; VStr "f";
      VInt OP_LOAD; VInt 0;
      VInt OP_EXIT;
    VStr ".f";
      VInt OP_SETUPCATCH; VStr "h"; VStr "r";
      VInt OP_RET;
    VStr ".h";
      VInt OP_ABORT;
    VStr ".r";
      VInt OP_ABORT ].

(** A single defer region, left by an explicit scope exit. *)
Definition lone_defer_code : list value :=
  [ VStr ".main";
      VInt OP_SETUPDEFER; VStr "h"; VStr "r";
      VInt OP_UNWIND;
    VStr ".h";
      VInt OP_DEFERCONTINUE;
    VStr ".r";
      VInt OP_LOAD; VInt 0;
      VInt OP_EXIT ].

(** A callee that leaves one of its caller's catch regions and returns. *)
Definition stray_unwind_code : list value :=
  [ VStr ".main";
      VInt OP_SETUPCATCH; VStr "h"; VStr "r";
      VInt OP_SETUPCATCH; VStr "h"; VStr "r";
      VInt OP_CALL; VStr "f";
      VInt OP_LOAD; VInt 0;
      VInt OP_EXIT;
    VStr ".f";
      VInt OP_UNWIND;
    VStr ".r";
      VInt OP_RET;
    VStr ".h";
      VInt OP_ABORT ].

(** A callee with two defer regions and a catch region between them. *)
Definition two_defers_code : list value :=
  [ VStr ".main";
      VInt OP_SETUPCATCH; VStr "h"; VStr "r";
      VInt OP_CALL; VStr "f";
      VInt OP_LOAD; VInt 0;
      VInt OP_EXIT;
    VStr ".f";
      VInt OP_SETUPDEFER; VStr "d1"; VStr "r";
      VInt OP_SETUPCATCH; VStr "h"; VStr "r";
      VInt OP_SETUPDEFER; VStr "d2"; VStr "r";
      VInt OP_RET;
    VStr ".d1";
      VInt OP_DEFERCONTINUE;
    VStr ".d2";
      VInt OP_DEFERCONTINUE;
    VStr ".h";
      VInt OP_ABORT;
    VStr ".r";
      VInt OP_ABORT ].

(** A callee without blocks of its own, called inside a defer region. *)
Definition outer_defer_code : list value :=
  [ VStr ".main";
      VInt OP_SETUPDEFER; VStr "d"; VStr "r";
      VInt OP_SETUPCATCH; VStr "h"; VStr "r";
      VInt OP_CALL; VStr "f";
      VInt OP_LOAD; VInt 0;
      VInt OP_EXIT;
    VStr ".f";
      VInt OP_SETUPCATCH; VStr "h"; VStr "r";
      VInt OP_RET;
    VStr ".d";
      VInt OP_DEFERCONTINUE;
    VStr ".h";
      VInt OP_ABORT;
    VStr ".r";
      VInt OP_ABORT ].

(** After a call that returned out of a catch region, a defer region that is
    left by an explicit scope exit. *)
Definition return_then_defer_code : list value :=
  [ VStr ".main";
      VInt OP_CALL; VStr "f";
      VInt OP_SETUPCATCH; VStr "h"; VStr "r2";
      VInt OP_SETUPDEFER; VStr "d"; VStr "r1";
      VInt OP_UNWIND;
    VStr ".d";
      VInt OP_DEFERCONTINUE;
    VStr ".r1";
      VInt OP_UNWIND;
    VStr ".r2";
      VInt OP_LOAD; VInt 0;
      VInt OP_EXIT;
    VStr ".h";
      VInt OP_ABORT;
    VStr ".f";
      VInt OP_SETUPCATCH; VStr "h"; VStr "r2";
      VInt OP_RET ].

(** A callee with two defer regions whose second handler body calls a
    function that sets up a catch region of its own and returns. *)
Definition nested_defer_code : list value :=
  [ VStr ".main";
      VInt OP_SETUPCATCH; VStr "h"; VStr "r";
      VInt OP_CALL; VStr "f";
      VInt OP_LOAD; VInt 0;
      VInt OP_EXIT;
    VStr ".f";
      VInt OP_SETUPDEFER; VStr "d1"; VStr "c1";
      VInt OP_SETUPDEFER; VStr "d2"; VStr "c2";
      VInt OP_RET;
    VStr ".d1";
      VInt OP_LOAD; VStr "first defer";
      VInt OP_PRINT;
      VInt OP_DEFERCONTINUE;
    VStr ".d2";
      VInt OP_LOAD; VStr "second defer";
      VInt OP_PRINT;
      VInt OP_CALL; VStr "g";
      VInt OP_DEFERCONTINUE;
    VStr ".g";
      VInt OP_SETUPCATCH; VStr "h"; VStr "r";
      VInt OP_RET;
    VStr ".c2";
      VInt OP_LOAD; VInt 99;
      VInt OP_EXIT;
    VStr ".c1";
      VInt OP_ABORT;
    VStr ".h";
      VInt OP_ABORT;
    VStr ".r";
      VInt OP_ABORT ].

(** ** States of those programs at the operation under study *)

Definition default_frame : frame := Frame VNone 0 None.
Definition default_block : block := Block "" 0 VNone None default_frame.

(** [sample_code_memory] on the input 3, 4, about to execute the [OP_ADD]
    of [add]: three frames and five blocks are live. *)
Definition sample_in_add : state :=
  state_after sample_code_memory 20 (initial_state [3; 4]).

(** [two_defers_code] about to execute the [OP_RET] of [f]. *)
Definition two_defers_at_ret : state :=
  state_after two_defers_code 9 (initial_state []).

(** [outer_defer_code] about to execute the [OP_RET] of [f]. *)
Definition outer_defer_at_ret : state :=
  state_after outer_defer_code 8 (initial_state []).

(** [stray_unwind_code] about to execute [OP_RET] in the frame of [f]. *)
Definition stray_unwind_at_ret : state :=
  state_after stray_unwind_code 9 (initial_state []).

(** [throw_across_code] about to execute the [OP_THROW] of [f]. *)
Definition throw_across_at_throw : state :=
  state_after throw_across_code 6 (initial_state []).

(** [catch_return_code] about to execute the [OP_RET] of [f]. *)
Definition catch_return_at_ret : state :=
  state_after catch_return_code 5 (initial_state []).

(** [lone_defer_code] about to execute [OP_DEFERCONTINUE]. *)
Definition lone_defer_at_continue : state :=
  state_after lone_defer_code 4 (initial_state []).

(** [nested_defer_code] about to execute the [OP_RET] of [f]. *)
Definition nested_defer_at_ret : state :=
  state_after nested_defer_code 7 (initial_state []).

(** The state a return reaches when it pops the frame directly. *)
Definition direct_return (s : state) : outcome :=
  match function_stack s with
  | [] => Crashed IndexError
  | active :: callers =>
      Running (set_ip (return_address active) (set_frames callers s))
  end.

(** Does the top frame own the topmost block (under Python's [==])? *)
Definition owns_top_block (s : state) : bool :=
  match function_stack s, block_stack s with
  | active :: _, top :: _ => frame_eqb (heap s) (active_frame top) active
  | _, _ => false
  end.

(** A call into a function that returns at once, inside a catch region. *)
Definition plain_call_code : list value :=
  [ VStr ".main";
      VInt OP_SETUPCATCH; VStr "h"; VStr "r";
      VInt OP_CALL; VStr "f";
      VInt OP_LOAD; VInt 0;
      VInt OP_EXIT;
    VStr ".f";
      VInt OP_LOAD; VInt 1;
      VInt OP_RET;
    VStr ".h";
      VInt OP_ABORT;
    VStr ".r";
      VInt OP_ABORT ].

(** A callee that throws inside a defer region of its own, its caller
    holding the catch region. *)
Definition defer_then_catch_code : list value :=
  [ VStr ".main";
      VInt OP_SETUPCATCH; VStr "h"; VStr "r";
      VInt OP_CALL; VStr "f";
    VStr ".r";
      VInt OP_LOAD; VInt 0;
      VInt OP_EXIT;
    VStr ".h";
      VInt OP_LOAD; VInt 1;
      VInt OP_EXIT;
    VStr ".f";
      VInt OP_SETUPDEFER; VStr "d"; VStr "r";
      VInt OP_THROW;
    VStr ".d";
      VInt OP_DEFERCONTINUE ].

(** The state in which an unwind enters the handler of the topmost block:
    of a catch, which is popped and ends the unwind, or of a defer, which
    stays while the unwind [r] is pending. *)
Definition enter_catch (s : state) : state :=
  match block_stack s with
  | top :: below =>
      set_ip (VInt (handler_offset top)) (set_reason None (set_blocks below s))
  | [] => s
  end.

Definition enter_defer (r : reason) (s : state) : state :=
  match block_stack s with
  | top :: _ => set_ip (VInt (handler_offset top)) (set_reason (Some r) s)
  | [] => s
  end.

(** [sample_code_memory] on the input [a], [b], with [c] for the sum that
    [OP_ADD] computes and [t] for the outcome of [OP_CMP]: the states after
    the [OP_ADD] of [add], in the catch handler of [add], in the defer
    handler of [add], and after the [OP_CMP] of [prevent_14]. *)
Definition sample_after_add (a b c : Z) (rest : list Z) : state :=
  set_ip (VInt 50)
    (set_data [VInt c]
       (state_after sample_code_memory 20 (initial_state (a :: b :: rest)))).

Definition sample_in_add_catch (a b c : Z) (rest : list Z) : state :=
  enter_catch (sample_after_add a b c rest).

Definition sample_in_add_defer (a b c : Z) (rest : list Z) : state :=
  enter_defer UNWIND_RETURN
    (state_after sample_code_memory 5 (sample_in_add_catch a b c rest)).

Definition sample_after_cmp (a b c : Z) (t : bool) (rest : list Z) : state :=
  set_ip (VInt 80)
    (set_data [VBool t]
       (state_after sample_code_memory 7 (sample_in_add_defer a b c rest))).

(** The sum is not 14: the state in the defer handler of [prevent_14] during
    its return. *)
Definition sample_in_prevent_defer (a b c : Z) (rest : list Z) : state :=
  enter_defer UNWIND_RETURN
    (state_after sample_code_memory 2 (sample_after_cmp a b c false rest)).

(** The sum is 14: the states in the defer handler of [prevent_14], in the
    defer handler of [main] and in the catch handler of [main] while the
    exception travels. *)
Definition sample_thrown_prevent_defer (a b c : Z) (rest : list Z) : state :=
  enter_defer UNWIND_EXCEPTION
    (state_after sample_code_memory 2 (sample_after_cmp a b c true rest)).

Definition sample_thrown_main_defer (a b c : Z) (rest : list Z) : state :=
  let s := state_after sample_code_memory 3
             (sample_thrown_prevent_defer a b c rest) in
  enter_defer UNWIND_EXCEPTION
    (set_blocks (tl (block_stack s)) (set_frames (tl (function_stack s)) s)).

Definition sample_thrown_main_catch (a b c : Z) (rest : list Z) : state :=
  let s := state_after sample_code_memory 3
             (sample_thrown_main_defer a b c rest) in
  enter_catch (set_blocks (tl (block_stack s)) s).

(** How many operands an operation pops without reading anything else
    first. *)
Definition pops (op : Z) : nat :=
  if (op =? OP_ADD) || (op =? OP_CMP) then 2
  else if (op =? OP_PRINT) || (op =? OP_JMPIF) || (op =? OP_EXIT)
          || (op =? OP_DUP) then 1
  else 0.

(** The line that [OP_PRINT] writes for a value. *)
Definition printed (v : value) : string :=
  String.append "=> " (String.append (py_str v) nl).

(** ** Notions for the properties of the remaining operations *)

(** The string [resolve_label] looks for: the label with a dot in front. *)
Definition label_cell (label : value) : value :=
  VStr (String.append "." (py_str label)).

(** Every block records, as its parent, the nearest block of its own type
    among the blocks beneath it. *)
Fixpoint parents_recorded (bs : list block) : Prop :=
  match bs with
  | [] => True
  | b :: rest =>
      parent_block b = last_block (block_type b) rest /\
      parents_recorded rest
  end.

(** No two frames of the call stack share a locals list, and every locals
    list is allocated. *)
Definition locals_private (s : state) : Prop :=
  NoDup (map locals (function_stack s)) /\
  Forall (fun f => (locals f < List.length (heap s))%nat) (function_stack s).


(** ** Limits of the interpreter *)

(** How deep a frame or a block nests as a Python object: a frame is a list
    that holds its locals list and its marker, a block a tuple that holds
    its parent and its owner. *)
Fixpoint frame_depth (f : frame) : nat :=
  match f with
  | Frame _ _ m =>
      S (match m with None => 1 | Some b => block_depth b end)
  end
with block_depth (b : block) : nat :=
  match b with
  | Block _ _ _ p f =>
      S (Nat.max (match p with None => 0 | Some q => block_depth q end)
                 (frame_depth f))
  end.

(** [==] and [!=] on lists and tuples descend into the items, one level of
    the interpreter's recursion per level of nesting, and raise
    [RecursionError] beyond the recursion limit, which is 1000 unless it is
    changed; the prototype does not change it.  [comparison_depth] is a
    nesting that a comparison descends with room to spare. *)
Definition comparison_depth : nat := 400.

Definition nesting_within (n : nat) (s : state) : bool :=
  forallb (fun f => (frame_depth f <=? n)%nat) (function_stack s) &&
  forallb (fun b => (block_depth b <=? n)%nat) (block_stack s).

(** [int(...)] on the line read and the [f"=> {value}"] of [OP_PRINT]
    convert between integers and decimal strings, which the interpreter
    refuses beyond [sys.get_int_max_str_digits()] digits, 4300 unless it is
    changed, with a [ValueError]. *)
Definition int_max_str_digits : Z := 4300.

Definition convertible (z : Z) : Prop := Z.abs z < 10 ^ int_max_str_digits.

(** * Properties *)

(** ** Structural equality of frames and blocks *)

Lemma py_eq_refl (v : value) : py_eq v v = true.
Proof.
  destruct v as [z | s | [|] | ]; simpl; auto using Z.eqb_refl, String.eqb_refl.
Qed.

Lemma list_eq_refl (l : list value) : list_eq l l = true.
Proof.
  induction l as [| a l IH]; simpl; [reflexivity |].
  now rewrite py_eq_refl, IH.
Qed.

(** Both facts below go by induction on a bound of the size, the types being
    nested through [option]. *)
Lemma eqb_refl_bounded (st : store) (n : nat) :
  (forall f, (frame_size f <= n)%nat -> frame_eqb st f f = true) /\
  (forall b, (block_size b <= n)%nat -> block_eqb st b b = true).
Proof.
  induction n as [| n [IHf IHb]].
  - split; [intros [r l m] | intros [t h c p f]]; simpl; lia.
  - split.
    + intros [r l m] Hs. simpl in Hs. simpl.
      rewrite py_eq_refl, list_eq_refl. simpl.
      destruct m as [b |]; [apply IHb; lia | reflexivity].
    + intros [t h c p f] Hs. simpl in Hs. simpl.
      rewrite String.eqb_refl, Z.eqb_refl, py_eq_refl. simpl.
      rewrite (IHf f) by lia.
      destruct p as [q |]; [rewrite (IHb q) by lia |]; reflexivity.
Qed.

Lemma frame_eqb_refl (st : store) (f : frame) : frame_eqb st f f = true.
Proof. exact (proj1 (eqb_refl_bounded st (frame_size f)) f (le_n _)). Qed.

Lemma block_eqb_refl (st : store) (b : block) : block_eqb st b b = true.
Proof. exact (proj2 (eqb_refl_bounded st (block_size b)) b (le_n _)). Qed.

Lemma eqb_size_bounded (st : store) (n : nat) :
  (forall f g, (frame_size f <= n)%nat -> frame_eqb st f g = true ->
               frame_size f = frame_size g) /\
  (forall b c, (block_size b <= n)%nat -> block_eqb st b c = true ->
               block_size b = block_size c).
Proof.
  induction n as [| n [IHf IHb]].
  - split; [intros [r l m] | intros [t h c p f]]; simpl; lia.
  - split.
    + intros [r1 l1 m1] [r2 l2 m2] Hs H. simpl in Hs, H. simpl.
      apply andb_prop in H. destruct H as [_ H].
      destruct m1 as [b1 |], m2 as [b2 |]; try discriminate; auto.
      f_equal. apply IHb; [lia | assumption].
    + intros [t1 h1 c1 p1 f1] [t2 h2 c2 p2 f2] Hs H. simpl in Hs, H. simpl.
      apply andb_prop in H. destruct H as [H Hf].
      apply andb_prop in H. destruct H as [_ Hp].
      rewrite (IHf f1 f2) by (lia || assumption).
      destruct p1 as [q1 |], p2 as [q2 |]; try discriminate; auto.
      rewrite (IHb q1 q2) by (lia || assumption). reflexivity.
Qed.

Lemma frame_eqb_size (st : store) (f g : frame) :
  frame_eqb st f g = true -> frame_size f = frame_size g.
Proof. exact (proj1 (eqb_size_bounded st (frame_size f)) f g (le_n _)). Qed.

Lemma block_eqb_size (st : store) (b c : block) :
  block_eqb st b c = true -> block_size b = block_size c.
Proof. exact (proj2 (eqb_size_bounded st (block_size b)) b c (le_n _)). Qed.

(** A block never compares equal to the marker of the frame that owns it:
    the block contains that frame, which contains the marker. *)
Lemma marker_differs_from_own_block (st : store) (f : frame) (b : block) :
  active_frame b = f ->
  oblock_eqb st (block_marker f) (Some b) = false.
Proof.
  intros Hown. destruct f as [r l [m |]]; simpl; [| reflexivity].
  destruct (block_eqb st m b) eqn:E; [| reflexivity].
  apply block_eqb_size in E.
  destruct b as [t h c p f']. simpl in Hown. subst f'. simpl in E. lia.
Qed.

(** Different under [==] means different objects. *)
Lemma frame_eqb_false_neq (st : store) (f g : frame) :
  frame_eqb st f g = false -> f <> g.
Proof.
  intros E ->. rewrite frame_eqb_refl in E. discriminate.
Qed.

(** ** Fetch and dispatch *)

Lemma step_fetches (code : list value) (s : state) (op : Z) :
  fetches code s op ->
  exists opcode ip,
    as_int (instruction_ptr s) = Some ip /\
    as_int opcode = Some op /\
    step code s = dispatch code opcode op ip s.
Proof.
  intros (opcode & Hget & Hop). unfold step.
  destruct (as_int (instruction_ptr s)) as [ip |] eqn:Hip.
  - exists opcode, ip. repeat split; auto.
    rewrite Hget. destruct opcode as [z | l | [|] | ]; simpl in Hop;
      try discriminate; inversion Hop; subst; reflexivity.
  - unfold py_getitem in Hget. rewrite Hip in Hget. discriminate.
Qed.

Lemma step_unwind (code : list value) (s : state) :
  fetches code s OP_UNWIND -> step code s = continue (op_unwind s).
Proof.
  intros H. destruct (step_fetches _ _ _ H) as (o & ip & _ & _ & ->).
  reflexivity.
Qed.

Lemma step_defercontinue (code : list value) (s : state) :
  fetches code s OP_DEFERCONTINUE ->
  step code s = continue (op_defercontinue s).
Proof.
  intros H. destruct (step_fetches _ _ _ H) as (o & ip & _ & _ & ->).
  reflexivity.
Qed.

Lemma step_ret (code : list value) (s : state) :
  fetches code s OP_RET -> step code s = continue (op_ret s).
Proof.
  intros H. destruct (step_fetches _ _ _ H) as (o & ip & _ & _ & ->).
  reflexivity.
Qed.

Lemma step_throw (code : list value) (s : state) :
  fetches code s OP_THROW -> step code s = continue (op_throw s).
Proof.
  intros H. destruct (step_fetches _ _ _ H) as (o & ip & _ & _ & ->).
  reflexivity.
Qed.

Lemma step_call (code : list value) (s : state) :
  fetches code s OP_CALL ->
  exists ip, as_int (instruction_ptr s) = Some ip /\
             step code s = continue (op_call code ip s).
Proof.
  intros H. destruct (step_fetches _ _ _ H) as (o & ip & Hip & _ & ->).
  exists ip. split; [assumption | reflexivity].
Qed.

Lemma run_reachable (code : list value) (user : list Z) (n : nat) :
  forall s s', reachable code user s -> run code n s = Running s' ->
               reachable code user s'.
Proof.
  induction n as [| n IH]; intros s s' Hr Hrun; simpl in Hrun.
  - inversion Hrun; subst; assumption.
  - destruct (step code s) as [s1 | s1 | e] eqn:Hs; try discriminate.
    apply (IH s1); [eapply reach_step; eassumption | assumption].
Qed.

(** ** Nesting of the block stack in the call stack *)

Lemma aligned_pop_block (fs : list frame) (b : block) (bs : list block) :
  aligned fs (b :: bs) -> aligned fs bs.
Proof.
  intros H. remember (b :: bs) as l eqn:El.
  induction H as [fs | f fs b' bs' Hown H IH | f fs l' H IH Hsz].
  - discriminate.
  - inversion El; subst. assumption.
  - subst l'. apply aligned_skip; [auto |]. inversion Hsz; assumption.
Qed.

Lemma aligned_drop (fs : list frame) (pre bs : list block) :
  aligned fs (pre ++ bs) -> aligned fs bs.
Proof.
  induction pre as [| b pre IH]; simpl; intros H; [assumption |].
  apply IH. eapply aligned_pop_block; eassumption.
Qed.

(** A frame whose blocks are all gone can leave. *)
Lemma aligned_pop_frame (f : frame) (fs : list frame) (bs : list block) :
  aligned (f :: fs) bs ->
  (forall top rest, bs = top :: rest -> active_frame top <> f) ->
  aligned fs bs.
Proof.
  intros H Htop. inversion H; subst.
  - constructor.
  - exfalso. eapply Htop; reflexivity.
  - assumption.
Qed.

Lemma aligned_owner_in (fs : list frame) (bs : list block) :
  aligned fs bs -> forall b, In b bs -> In (active_frame b) fs.
Proof.
  induction 1 as [fs | f fs b' bs' Hown H IH | f fs l' H IH Hsz];
    intros b Hin.
  - destruct Hin.
  - destruct Hin as [-> | Hin]; [left; auto | auto].
  - right. auto.
Qed.

(** No owner is nested deeper than the top frame. *)
Lemma aligned_bound (fs : list frame) (bs : list block) :
  aligned fs bs ->
  forall f rest, fs = f :: rest ->
    Forall (fun b => (frame_size (active_frame b) <= frame_size f)%nat) bs.
Proof.
  induction 1 as [fs | f0 fs b' bs' Hown H IH | f0 fs l' H IH Hsz];
    intros f rest E.
  - constructor.
  - inversion E; subst. constructor; [lia | eauto].
  - inversion E; subst. eapply Forall_impl; [| exact Hsz].
    simpl. intros b Hb. lia.
Qed.

(** The topmost block is nested deeper than the owner of any block. *)
Lemma top_dominates (fs : list frame) (top : block) (bs : list block) :
  aligned fs (top :: bs) ->
  Forall (fun b => (frame_size (active_frame b) < block_size top)%nat)
         (top :: bs).
Proof.
  intros H. remember (top :: bs) as l eqn:El.
  induction H as [fs | f fs b' bs' Hown H IH | f fs l' H IH Hsz].
  - discriminate.
  - inversion El; subst. clear IH.
    assert (Hlt : (frame_size (active_frame top) < block_size top)%nat)
      by (destruct top as [t h c p fr]; simpl; lia).
    constructor; [assumption |].
    eapply Forall_impl; [| exact (aligned_bound _ _ H _ _ eq_refl)].
    simpl. intros b Hb. lia.
  - auto.
Qed.

(** Among the blocks on the stack, those that compare equal to the top
    frame's blocks are the top frame's blocks: [==] decides ownership. *)
Lemma owner_eqb_top (st : store) (F : frame) (fs : list frame)
  (bs : list block) :
  aligned (F :: fs) bs ->
  forall b, In b bs ->
    frame_eqb st (active_frame b) F = true -> active_frame b = F.
Proof.
  intros H. remember (F :: fs) as l eqn:El.
  induction H as [l | f l b' bs' Hown H IH | f l bs' H IH Hsz];
    intros b Hin Heq.
  - destruct Hin.
  - inversion El; subst. destruct Hin as [-> | Hin]; auto.
  - inversion El; subst. rewrite Forall_forall in Hsz.
    apply Hsz in Hin. apply frame_eqb_size in Heq. lia.
Qed.

Lemma unwind_frames_spec (st : store) (owner : frame) (fs fs' : list frame) :
  unwind_frames st owner fs = Some fs' ->
  exists popped k kept,
    fs = popped ++ k :: kept /\ fs' = k :: kept /\
    Forall (fun f => frame_eqb st owner f = false) popped /\
    frame_eqb st owner k = true.
Proof.
  induction fs as [| f fs IH]; simpl; intros H; [discriminate |].
  destruct (frame_eqb st owner f) eqn:E.
  - inversion H; subst. exists [], f, fs. auto.
  - destruct (IH H) as (popped & k & kept & -> & -> & Hall & Hk).
    exists (f :: popped), k, kept. repeat split; auto.
Qed.

Lemma unwind_frames_complete (st : store) (owner : frame)
  (popped kept : list frame) (k : frame) :
  Forall (fun f => frame_eqb st owner f = false) popped ->
  frame_eqb st owner k = true ->
  unwind_frames st owner (popped ++ k :: kept) = Some (k :: kept).
Proof.
  induction 1 as [| f popped Hf _ IH]; simpl; intros Hk.
  - now rewrite Hk.
  - rewrite Hf. auto.
Qed.

Lemma unwind_frames_found (st : store) (owner : frame) (fs : list frame) :
  In owner fs -> exists fs', unwind_frames st owner fs = Some fs'.
Proof.
  induction fs as [| f fs IH]; simpl; intros Hin; [destruct Hin |].
  destruct (frame_eqb st owner f) eqn:E; [eauto |].
  destruct Hin as [-> | Hin]; [| auto].
  rewrite frame_eqb_refl in E. discriminate.
Qed.

(** In a nested state the frames popped by an exception unwind are the ones
    above the owner of the topmost block, and the scan stops at that very
    frame. *)
Lemma unwind_frames_owner (st : store) (top : block) (below : list block)
  (fs : list frame) :
  aligned fs (top :: below) ->
  exists popped kept,
    fs = popped ++ active_frame top :: kept /\
    ~ In (active_frame top) popped /\
    unwind_frames st (active_frame top) fs = Some (active_frame top :: kept).
Proof.
  intros H. remember (top :: below) as l eqn:El.
  induction H as [fs | f fs b' bs' Hown H IH | f fs l' H IH Hsz].
  - discriminate.
  - inversion El; subst. exists [], fs. simpl.
    rewrite frame_eqb_refl. auto.
  - subst l'. destruct (IH eq_refl) as (popped & kept & -> & Hnin & Huf).
    inversion Hsz as [| ? ? Hlt _]; subst.
    exists (f :: popped), kept. simpl.
    destruct (frame_eqb st (active_frame top) f) eqn:E.
    + apply frame_eqb_size in E. lia.
    + repeat split; auto.
      intros [Heq | Hin]; [| auto].
      rewrite Heq in Hlt. lia.
Qed.

Lemma aligned_unwind_frames (st : store) (top : block) (below : list block)
  (fs fs' : list frame) :
  aligned fs (top :: below) ->
  unwind_frames st (active_frame top) fs = Some fs' ->
  aligned fs' (top :: below).
Proof.
  induction fs as [| f fs IH]; simpl; intros Hal H; [discriminate |].
  destruct (frame_eqb st (active_frame top) f) eqn:E.
  - inversion H; subst. assumption.
  - apply IH; [| assumption].
    apply (aligned_pop_frame f); [assumption |].
    intros t r Heq. inversion Heq; subst.
    eapply frame_eqb_false_neq; eassumption.
Qed.

Lemma aligned_pop_owned (st : store) (f : frame) (fs : list frame)
  (bs : list block) :
  aligned (f :: fs) bs -> aligned fs (pop_owned st f bs).
Proof.
  induction bs as [| b bs IH]; simpl; intros Hal; [constructor |].
  destruct (frame_eqb st (active_frame b) f) eqn:E.
  - apply IH. eapply aligned_pop_block; eassumption.
  - apply (aligned_pop_frame f); [assumption |].
    intros t r Heq. inversion Heq; subst.
    eapply frame_eqb_false_neq; eassumption.
Qed.

Lemma pop_owned_suffix (st : store) (f : frame) (bs : list block) :
  exists pre, bs = pre ++ pop_owned st f bs /\
              Forall (fun b => frame_eqb st (active_frame b) f = true) pre.
Proof.
  induction bs as [| b bs (pre & IH & Hall)]; simpl.
  - exists []. auto.
  - destruct (frame_eqb st (active_frame b) f) eqn:E.
    + exists (b :: pre). split; [simpl; congruence | auto].
    + exists []. auto.
Qed.

Lemma pop_owned_exact (st : store) (F : frame) (fs : list frame)
  (bs : list block) :
  aligned (F :: fs) bs ->
  exists own, bs = own ++ pop_owned st F bs /\
              Forall (fun b => active_frame b = F) own.
Proof.
  intros Hal. destruct (pop_owned_suffix st F bs) as (own & Hsplit & Hown).
  exists own. split; [assumption |].
  rewrite Forall_forall in *. intros b Hin.
  apply (owner_eqb_top st F fs bs Hal); [| auto].
  rewrite Hsplit. apply in_or_app. now left.
Qed.

Lemma pop_until_suffix (st : store) (d : block) (bs : list block) :
  exists pre, bs = pre ++ pop_until st d bs /\
              Forall (fun b => block_eqb st b d = false) pre.
Proof.
  induction bs as [| b bs (pre & IH & Hall)]; simpl.
  - exists []. auto.
  - destruct (block_eqb st b d) eqn:E.
    + exists []. auto.
    + exists (b :: pre). split; [simpl; congruence | auto].
Qed.

Lemma Forall_drop {A : Type} (P : A -> Prop) (pre l : list A) :
  Forall P (pre ++ l) -> Forall P l.
Proof.
  intros H. apply Forall_app in H. tauto.
Qed.

Lemma NoDup_drop {A : Type} (pre l : list A) : NoDup (pre ++ l) -> NoDup l.
Proof.
  induction pre as [| a pre IH]; simpl; intros H; [assumption |].
  inversion H; auto.
Qed.

Lemma NoDup_tail {A : Type} (a : A) (l : list A) : NoDup (a :: l) -> NoDup l.
Proof. inversion 1; assumption. Qed.

Lemma Forall_tail {A : Type} (P : A -> Prop) (a : A) (l : list A) :
  Forall P (a :: l) -> Forall P l.
Proof. inversion 1; assumption. Qed.

(** ** The invariant is kept by every operation *)

Ltac proj :=
  cbn [data_stack function_stack block_stack unwind_reason instruction_ptr
       exit_code heap stdin stdout set_data set_frames set_blocks set_reason
       set_ip set_exit set_heap set_stdin set_stdout] in *.

Lemma known_pop_owned (st : store) (f : frame) (bs : list block) :
  Forall known_type bs -> Forall known_type (pop_owned st f bs).
Proof.
  intros H. destruct (pop_owned_suffix st f bs) as (pre & Hpre & _).
  rewrite Hpre in H. eapply Forall_drop; eassumption.
Qed.

Lemma known_pop_until (st : store) (d : block) (bs : list block) :
  Forall known_type bs -> Forall known_type (pop_until st d bs).
Proof.
  intros H. destruct (pop_until_suffix st d bs) as (pre & Hpre & _).
  rewrite Hpre in H. eapply Forall_drop; eassumption.
Qed.

Lemma aligned_pop_until (st : store) (d : block) (fs : list frame)
  (bs : list block) :
  aligned fs bs -> aligned fs (pop_until st d bs).
Proof.
  intros H. destruct (pop_until_suffix st d bs) as (pre & Hpre & _).
  rewrite Hpre in H. eapply aligned_drop; eassumption.
Qed.

Lemma unwind_block_wf (s s' : state) :
  well_formed s -> unwind_block s = Ok s' -> well_formed s'.
Proof.
  intros [Hal Hty Hfr Hnd]. unfold unwind_block.
  destruct (block_stack s) as [| top below] eqn:Ebs; [discriminate |].
  destruct (function_stack s) as [| top_frame callers] eqn:Efs;
    [discriminate |].
  destruct (unwind_reason s) as [[|] |]; [| | discriminate].
  - destruct (unwind_frames (heap s) (active_frame top) (top_frame :: callers))
      as [fs |] eqn:Euf; [| discriminate].
    pose proof (aligned_unwind_frames _ _ _ _ _ Hal Euf) as Hal'.
    destruct (unwind_frames_spec _ _ _ _ Euf)
      as (popped & k & kept & Hfs & -> & _ & _).
    rewrite Hfs in Hfr, Hnd.
    destruct (String.eqb (block_type top) "catch");
      [| destruct (String.eqb (block_type top) "defer"); [| discriminate]];
      intros H; injection H as <-; constructor; proj;
      rewrite ?Ebs;
      eauto using aligned_pop_block, Forall_tail, Forall_drop, NoDup_drop.
  - pose proof (aligned_pop_owned (heap s) _ _ _ Hal) as Hal1.
    pose proof (known_pop_owned (heap s) top_frame _ Hty) as Hty1.
    destruct (last_block "defer" (top :: below)) as [d |];
      [pose proof (aligned_pop_until (heap s) d _ _ Hal) as Hal2;
       pose proof (known_pop_until (heap s) d _ Hty) as Hty2;
       destruct (frame_eqb (heap s) (active_frame d) top_frame) |];
      intros H; injection H as <-; constructor; proj;
      cbn [pop_owned pop_until] in *; rewrite ?Efs;
      eauto using Forall_tail, NoDup_tail.
Qed.

Lemma replace_nth_length {A : Type} (k : nat) (a : A) (l : list A) :
  List.length (replace_nth k a l) = List.length l.
Proof.
  revert k. induction l as [| h t IH]; intros [| k]; simpl; auto.
Qed.

(** Operations that leave both stacks alone and do not shrink the store. *)
Lemma well_formed_same (s s' : state) :
  function_stack s' = function_stack s ->
  block_stack s' = block_stack s ->
  (List.length (heap s) <= List.length (heap s'))%nat ->
  well_formed s -> well_formed s'.
Proof.
  intros Hf Hb Hh [Hal Hty Hfr Hnd].
  constructor; rewrite ?Hf, ?Hb; auto.
  eapply Forall_impl; [| exact Hfr]. simpl. intros f Hlt. lia.
Qed.

(** Splits a successful run of binds and matches into its cases. *)
Ltac ok_cases H :=
  unfold bind in H;
  repeat match type of H with
    | match ?x with _ => _ end = _ =>
        let E := fresh "E" in destruct x eqn:E; try discriminate H
    | (if ?x then _ else _) = _ =>
        let E := fresh "E" in destruct x eqn:E; try discriminate H
    end.

Lemma push_block_wf (code : list value) (ty : string) (h c : value)
  (s s' : state) :
  ty = "catch" \/ ty = "defer" ->
  well_formed s -> push_block code ty h c s = Ok s' -> well_formed s'.
Proof.
  intros Hty [Hal Htys Hfr Hnd] H. unfold push_block in H.
  destruct (function_stack s) as [| active callers] eqn:Efs;
    [discriminate |].
  ok_cases H; injection H as <-; constructor; proj; rewrite ?Efs; auto;
    try (apply aligned_own; [reflexivity | assumption]);
    constructor; auto.
Qed.

Lemma op_call_wf (code : list value) (ip : Z) (s s' : state) :
  well_formed s -> op_call code ip s = Ok s' -> well_formed s'.
Proof.
  intros [Hal Htys Hfr Hnd] H. unfold op_call in H.
  ok_cases H. injection H as <-. constructor; proj.
  - apply aligned_skip; [assumption |].
    destruct (block_stack s) as [| top below]; [constructor |].
    eapply Forall_impl; [| exact (top_dominates _ _ _ Hal)].
    simpl. intros b Hb. lia.
  - assumption.
  - rewrite length_app. simpl. constructor; [simpl; lia |].
    eapply Forall_impl; [| exact Hfr]. simpl. intros f Hlt. lia.
  - constructor; [| assumption].
    intros Hin. rewrite Forall_forall in Hfr.
    apply Hfr in Hin. simpl in Hin. lia.
Qed.

Lemma op_unwind_wf (s s' : state) :
  well_formed s -> op_unwind s = Ok s' -> well_formed s'.
Proof.
  intros [Hal Htys Hfr Hnd] H. unfold op_unwind in H.
  destruct (block_stack s) as [| top below] eqn:Ebs; [discriminate |].
  ok_cases H; injection H as <-; constructor; proj; rewrite ?Ebs;
    eauto using aligned_pop_block, Forall_tail.
Qed.

Lemma well_formed_pop_block (s : state) (top : block) (below : list block) :
  block_stack s = top :: below ->
  well_formed s -> well_formed (set_blocks below s).
Proof.
  intros Ebs [Hal Htys Hfr Hnd]. rewrite Ebs in Hal, Htys.
  constructor; proj; eauto using aligned_pop_block, Forall_tail.
Qed.

Lemma op_defercontinue_wf (s s' : state) :
  well_formed s -> op_defercontinue s = Ok s' -> well_formed s'.
Proof.
  intros Hwf H. unfold op_defercontinue in H.
  destruct (List.length (block_stack s) <? 2)%nat; [discriminate |].
  destruct (block_stack s) as [| top below] eqn:Ebs; [discriminate |].
  pose proof (well_formed_pop_block s top below Ebs Hwf) as Hwf'.
  destruct (unwind_reason s) as [r |] eqn:Er.
  - eapply unwind_block_wf; eassumption.
  - injection H as <-. eapply well_formed_same; [| | | exact Hwf']; auto.
Qed.

Lemma op_ret_wf (s s' : state) :
  well_formed s -> op_ret s = Ok s' -> well_formed s'.
Proof.
  intros Hwf H. unfold op_ret in H.
  destruct (function_stack s) as [| active callers] eqn:Efs;
    [discriminate |].
  destruct (must_unwind (heap s) active (block_stack s)) eqn:Em.
  - apply (unwind_block_wf (set_reason (Some UNWIND_RETURN) s)); [| exact H].
    destruct Hwf; constructor; assumption.
  - injection H as <-. destruct Hwf as [Hal Htys Hfr Hnd].
    rewrite Efs in Hal, Hfr, Hnd.
    constructor; proj; eauto using Forall_tail, NoDup_tail.
    apply (aligned_pop_frame active); [assumption |].
    intros top rest Ebs Hown. rewrite Ebs in Em. simpl in Em.
    rewrite (marker_differs_from_own_block _ _ _ Hown) in Em.
    discriminate.
Qed.

Lemma op_throw_wf (s s' : state) :
  well_formed s -> op_throw s = Ok s' -> well_formed s'.
Proof.
  intros Hwf H. unfold op_throw in H.
  destruct (last_block "catch" (block_stack s)); [| discriminate].
  apply (unwind_block_wf (set_reason (Some UNWIND_EXCEPTION) s)); [| exact H].
  destruct Hwf; constructor; assumption.
Qed.

Lemma op_writelocal_wf (code : list value) (ip : Z) (s s' : state) :
  well_formed s -> op_writelocal code ip s = Ok s' -> well_formed s'.
Proof.
  intros Hwf H. unfold op_writelocal in H. ok_cases H. injection H as <-.
  eapply well_formed_same; [| | | exact Hwf]; proj; auto.
  rewrite replace_nth_length. lia.
Qed.

Lemma dispatch_wf (code : list value) (opcode : value) (op ip : Z)
  (s s' : state) :
  well_formed s -> dispatch code opcode op ip s = Running s' ->
  well_formed s'.
Proof.
  intros Hwf H. unfold dispatch in H.
  repeat match type of H with
    | (if ?c then _ else _) = _ => destruct c
    end;
    try discriminate;
    try (match type of H with
         | continue ?r = _ =>
             let E := fresh "E" in
             destruct r as [s1 | e] eqn:E; [| discriminate];
             injection H as <-
         end).
  - unfold op_load in E. ok_cases E. injection E as <-.
    eapply well_formed_same; [| | | exact Hwf]; auto.
  - unfold op_getnumber in E. ok_cases E. injection E as <-.
    eapply well_formed_same; [| | | exact Hwf]; auto.
  - eapply op_writelocal_wf; eassumption.
  - unfold op_setupcatch in E. ok_cases E. injection E as <-.
    eapply well_formed_same;
      [| | | eapply (push_block_wf code "catch"); eauto]; auto.
  - unfold op_setupdefer in E. ok_cases E. injection E as <-.
    eapply well_formed_same;
      [| | | eapply (push_block_wf code "defer"); eauto]; auto.
  - unfold op_jmp in E. ok_cases E. injection E as <-.
    eapply well_formed_same; [| | | exact Hwf]; auto.
  - unfold op_jmpif in E. ok_cases E; injection E as <-;
      (eapply well_formed_same; [| | | exact Hwf]; auto).
  - unfold op_loadlocal in E. ok_cases E. injection E as <-.
    eapply well_formed_same; [| | | exact Hwf]; auto.
  - unfold op_print in E. ok_cases E. injection E as <-.
    eapply well_formed_same; [| | | exact Hwf]; auto.
  - eapply op_call_wf; eassumption.
  - unfold op_add in E. ok_cases E. injection E as <-.
    eapply well_formed_same; [| | | exact Hwf]; auto.
  - unfold op_cmp in E. ok_cases E. injection E as <-.
    eapply well_formed_same; [| | | exact Hwf]; auto.
  - eapply op_unwind_wf; eassumption.
  - eapply op_defercontinue_wf; eassumption.
  - eapply op_ret_wf; eassumption.
  - eapply op_throw_wf; eassumption.
  - destruct (data_stack s); discriminate.
  - unfold op_dup in E. ok_cases E. injection E as <-.
    eapply well_formed_same; [| | | exact Hwf]; auto.
Qed.

Lemma step_wf (code : list value) (s s' : state) :
  well_formed s -> step code s = Running s' -> well_formed s'.
Proof.
  intros Hwf H. unfold step in H.
  destruct (as_int (instruction_ptr s)) as [ip |]; [| discriminate].
  destruct (py_getitem code (instruction_ptr s)) as [opcode | e];
    [| discriminate].
  destruct opcode as [z | l | b |]; simpl in H; try discriminate;
    try (eapply dispatch_wf; eassumption).
  - injection H as <-. eapply well_formed_same; [| | | exact Hwf]; auto.
  - destruct b; eapply dispatch_wf; eassumption.
Qed.

Lemma initial_wf (user : list Z) : well_formed (initial_state user).
Proof.
  constructor; simpl.
  - constructor.
  - constructor.
  - constructor; [simpl; lia | constructor].
  - constructor; [intros [] | constructor].
Qed.

Lemma reachable_wf (code : list value) (user : list Z) (s : state) :
  reachable code user s -> well_formed s.
Proof.
  induction 1 as [| s s' _ IH Hstep];
    [apply initial_wf | eapply step_wf; eassumption].
Qed.

(** ** Owner frames stay on the call stack *)

(** C8.  In every state the machine can reach from its initial state, each
    block on the block stack is owned by a frame that is still on the call
    stack: no operation pops a frame while a block it owns remains. *)
Theorem owner_frames_stay_live (code : list value) (user : list Z)
  (s : state) (b : block) :
  reachable code user s ->
  In b (block_stack s) ->
  In (active_frame b) (function_stack s).
Proof.
  intros Hr Hin. apply reachable_wf in Hr.
  eapply aligned_owner_in; [apply (wf_aligned _ Hr) | assumption].
Qed.

Lemma run_state_after (code : list value) (n : nat) (s : state) :
  (exists s', run code n s = Running s') ->
  run code n s = Running (state_after code n s).
Proof.
  intros [s' H]. unfold state_after. now rewrite H.
Qed.

Lemma reachable_after (code : list value) (user : list Z) (n : nat) :
  (exists s', run code n (initial_state user) = Running s') ->
  reachable code user (state_after code n (initial_state user)).
Proof.
  intros H. eapply run_reachable; [apply reach_init |].
  apply run_state_after. assumption.
Qed.

Lemma owner_frames_stay_live_witness :
  In (active_frame (nth 2 (block_stack sample_in_add) default_block))
     (function_stack sample_in_add).
Proof.
  apply (owner_frames_stay_live sample_code_memory [3; 4] sample_in_add
           (nth 2 (block_stack sample_in_add) default_block)).
  - apply (reachable_after sample_code_memory [3; 4] 20).
    vm_compute. eexists. reflexivity.
  - vm_compute. right. right. left. reflexivity.
Defined.

(** ** Throwing *)

Lemma has_block_last_block (ty : string) (bs : list block) :
  has_block ty bs = true -> exists c, last_block ty bs = Some c.
Proof.
  unfold has_block, last_block.
  induction bs as [| b bs IH]; simpl; [discriminate |].
  destruct (String.eqb (block_type b) ty); simpl; eauto.
Qed.

Lemma has_block_none (ty : string) (bs : list block) :
  has_block ty bs = false -> last_block ty bs = None.
Proof.
  unfold has_block, last_block.
  induction bs as [| b bs IH]; simpl; [reflexivity |].
  destruct (String.eqb (block_type b) ty); simpl; [discriminate | auto].
Qed.

Lemma has_block_iff (ty : string) (bs : list block) :
  has_block ty bs = true <-> exists c, In c bs /\ block_type c = ty.
Proof.
  unfold has_block. rewrite existsb_exists.
  split; intros (c & Hin & Hc); exists c; split; auto;
    now apply String.eqb_eq.
Qed.

(** C1.  When [OP_THROW] executes with a catch block somewhere on the block
    stack, call frames are popped, none of their return addresses being used,
    down to the first one that equals the owner of the topmost block.  If
    that block is a catch it is popped, the reason is cleared and the
    instruction pointer becomes its handler offset; if it is a defer it stays,
    the instruction pointer becomes its handler offset and the reason stays
    [UNWIND_EXCEPTION]; any other block type is fatal. *)
Theorem throw_unwinds_to_owner (code : list value) (s : state)
  (top : block) (below : list block) (popped kept : list frame) (k : frame) :
  fetches code s OP_THROW ->
  has_block "catch" (block_stack s) = true ->
  block_stack s = top :: below ->
  function_stack s = popped ++ k :: kept ->
  Forall (fun f => frame_eqb (heap s) (active_frame top) f = false) popped ->
  frame_eqb (heap s) (active_frame top) k = true ->
  step code s =
    if String.eqb (block_type top) "catch" then
      Running (set_ip (VInt (handler_offset top))
                 (set_reason None
                    (set_blocks below (set_frames (k :: kept) s))))
    else if String.eqb (block_type top) "defer" then
      Running (set_ip (VInt (handler_offset top))
                 (set_reason (Some UNWIND_EXCEPTION)
                    (set_frames (k :: kept) s)))
    else Crashed (Exception "unexpected block type").
Proof.
  intros Hf Hc Ebs Efs Hpop Hk.
  rewrite (step_throw _ _ Hf). unfold op_throw.
  destruct (has_block_last_block _ _ Hc) as [c ->].
  unfold unwind_block. proj. rewrite Ebs, Efs.
  rewrite (unwind_frames_complete _ _ _ _ _ Hpop Hk).
  destruct (popped ++ k :: kept) eqn:E;
    [destruct popped; discriminate |].
  destruct (String.eqb (block_type top) "catch"); [reflexivity |].
  destruct (String.eqb (block_type top) "defer"); reflexivity.
Qed.

Lemma throw_unwinds_to_owner_witness :
  step throw_across_code throw_across_at_throw
  = Running
      (mkState [VInt 42] [Frame (VStr "err") 0 None] [] None (VInt 10)
         (VInt 0) [[VInt 0; VInt 0; VInt 0; VInt 0]; fresh_locals] [] []).
Proof.
  apply (throw_unwinds_to_owner throw_across_code
           throw_across_at_throw
           (Block "catch" 10 (VInt 6) None (Frame (VStr "err") 0 None)) []
           [Frame (VInt 6) 1
              (Some (Block "catch" 10 (VInt 6) None
                       (Frame (VStr "err") 0 None)))]
           [] (Frame (VStr "err") 0 None)).
  - exists (VInt OP_THROW). split; vm_compute; reflexivity.
  - vm_compute. reflexivity.
  - vm_compute. reflexivity.
  - vm_compute. reflexivity.
  - repeat constructor.
  - vm_compute. reflexivity.
Defined.

(** In the states of a run the comparison with [==] finds the owner itself:
    the frames popped are exactly those above the frame object that owns the
    topmost block. *)
Lemma throw_unwinds_to_owner_object (code : list value) (s : state)
  (top : block) (below : list block) :
  well_formed s ->
  fetches code s OP_THROW ->
  has_block "catch" (block_stack s) = true ->
  block_stack s = top :: below ->
  exists popped kept,
    function_stack s = popped ++ active_frame top :: kept /\
    ~ In (active_frame top) popped /\
    step code s =
      if String.eqb (block_type top) "catch" then
        Running (set_ip (VInt (handler_offset top))
                   (set_reason None
                      (set_blocks below
                         (set_frames (active_frame top :: kept) s))))
      else if String.eqb (block_type top) "defer" then
        Running (set_ip (VInt (handler_offset top))
                   (set_reason (Some UNWIND_EXCEPTION)
                      (set_frames (active_frame top :: kept) s)))
      else Crashed (Exception "unexpected block type").
Proof.
  intros [Hal _ _ _] Hf Hc Ebs. rewrite Ebs in Hal.
  destruct (unwind_frames_owner (heap s) _ _ _ Hal)
    as (popped & kept & Efs & Hnin & Huf).
  exists popped, kept. split; [assumption |]. split; [assumption |].
  rewrite (step_throw _ _ Hf). unfold op_throw.
  destruct (has_block_last_block _ _ Hc) as [c ->].
  unfold unwind_block. proj. rewrite Ebs, Huf.
  destruct (function_stack s) eqn:E;
    [destruct popped; discriminate |].
  destruct (String.eqb (block_type top) "catch"); [reflexivity |].
  destruct (String.eqb (block_type top) "defer"); reflexivity.
Qed.

Lemma unwind_exception_succeeds (s : state) :
  well_formed s -> block_stack s <> [] ->
  unwind_reason s = Some UNWIND_EXCEPTION ->
  exists s', unwind_block s = Ok s'.
Proof.
  intros [Hal Hty _ _] Hne Hr. unfold unwind_block. rewrite Hr.
  destruct (block_stack s) as [| top below] eqn:Ebs; [congruence |].
  assert (Hin : In (active_frame top) (function_stack s))
    by (eapply aligned_owner_in; [eassumption | now left]).
  destruct (unwind_frames_found (heap s) _ _ Hin) as [fs Hfs].
  destruct (function_stack s) as [| f callers] eqn:Efs; [destruct Hin |].
  rewrite Hfs. inversion Hty as [| ? ? Hk _]; subst.
  destruct Hk as [-> | ->]; simpl; eauto.
Qed.

(** C3.  In any state the machine can reach, [OP_THROW] goes on exactly when
    some catch block is on the block stack.  With one, control transfers as
    the exception unwind prescribes: the frames above the owner of the
    topmost block are popped and the instruction pointer becomes the handler
    offset of that block; a catch on top is popped and the reason cleared,
    which ends the unwind in its handler; a defer on top stays, its handler
    runs with the exception pending and a catch block is still beneath it.
    With none, the step raises "no exception handler found" and the run is
    over, however long it is allowed to go on. *)
Theorem throw_needs_catch (code : list value) (user : list Z) (s : state) :
  reachable code user s ->
  fetches code s OP_THROW ->
  if has_block "catch" (block_stack s) then
    exists top below popped kept,
      block_stack s = top :: below /\
      function_stack s = popped ++ active_frame top :: kept /\
      ~ In (active_frame top) popped /\
      step code s
      = Running
          (if String.eqb (block_type top) "catch" then
             set_ip (VInt (handler_offset top))
               (set_reason None
                  (set_blocks below
                     (set_frames (active_frame top :: kept) s)))
           else
             set_ip (VInt (handler_offset top))
               (set_reason (Some UNWIND_EXCEPTION)
                  (set_frames (active_frame top :: kept) s))) /\
      (String.eqb (block_type top) "catch" = false ->
       block_type top = "defer" /\ has_block "catch" below = true)
  else
    step code s = Crashed (Exception "no exception handler found") /\
    forall n,
      run code (S n) s = Crashed (Exception "no exception handler found").
Proof.
  intros Hr Hf.
  destruct (has_block "catch" (block_stack s)) eqn:Hc.
  - apply reachable_wf in Hr.
    destruct (block_stack s) as [| top below] eqn:Ebs; [discriminate |].
    destruct (throw_unwinds_to_owner_object code s top below Hr Hf)
      as (popped & kept & Efs & Hnin & Hstep);
      [rewrite Ebs; exact Hc | exact Ebs |].
    exists top, below, popped, kept.
    split; [reflexivity |]. split; [assumption |]. split; [assumption |].
    assert (Hty : known_type top).
    { destruct Hr as [_ Hty _ _]. rewrite Ebs in Hty.
      inversion Hty; assumption. }
    split.
    + rewrite Hstep. destruct Hty as [-> | ->]; reflexivity.
    + intros Hnc. destruct Hty as [E | E]; [rewrite E in Hnc; discriminate |].
      split; [assumption |].
      unfold has_block in Hc. cbn [existsb] in Hc. rewrite Hnc in Hc.
      exact Hc.
  - assert (Hstep : step code s
                    = Crashed (Exception "no exception handler found")).
    { rewrite (step_throw _ _ Hf). unfold op_throw.
      rewrite (has_block_none _ _ Hc). reflexivity. }
    split; [assumption |]. intros n. cbn [run]. rewrite Hstep. reflexivity.
Qed.

Lemma throw_needs_catch_witness :
  exists top below popped kept,
    block_stack throw_across_at_throw = top :: below /\
    function_stack throw_across_at_throw
    = popped ++ active_frame top :: kept /\
    ~ In (active_frame top) popped /\
    step throw_across_code throw_across_at_throw
    = Running
        (if String.eqb (block_type top) "catch" then
           set_ip (VInt (handler_offset top))
             (set_reason None
                (set_blocks below
                   (set_frames (active_frame top :: kept)
                      throw_across_at_throw)))
         else
           set_ip (VInt (handler_offset top))
             (set_reason (Some UNWIND_EXCEPTION)
                (set_frames (active_frame top :: kept)
                   throw_across_at_throw))) /\
    (String.eqb (block_type top) "catch" = false ->
     block_type top = "defer" /\ has_block "catch" below = true).
Proof.
  apply (throw_needs_catch throw_across_code []
           throw_across_at_throw).
  - apply (reachable_after throw_across_code [] 6).
    vm_compute. eexists. reflexivity.
  - exists (VInt OP_THROW). split; vm_compute; reflexivity.
Defined.

(** ** The operand stack during control transfers *)

Lemma unwind_block_data (s s' : state) :
  unwind_block s = Ok s' -> data_stack s' = data_stack s.
Proof.
  unfold unwind_block. intros H. ok_cases H; injection H as <-; reflexivity.
Qed.

Lemma unwind_exception_target (s s' : state) (top : block)
  (below : list block) :
  block_stack s = top :: below ->
  unwind_reason s = Some UNWIND_EXCEPTION ->
  unwind_block s = Ok s' ->
  instruction_ptr s' = VInt (handler_offset top).
Proof.
  unfold unwind_block. intros Ebs Er H. rewrite Ebs, Er in H.
  ok_cases H; injection H as <-; reflexivity.
Qed.

(** C10.  The control-transfer operations (throw, return, scope exit,
    defer-continue, call), and with them every step of the unwinding routine,
    leave the operand stack exactly as it was.  In particular, when a throw
    lands in the handler of a catch block, the value that was on top of the
    operand stack at the throw is on top when the handler starts. *)
Theorem control_transfer_keeps_operands (code : list value) (s s' : state)
  (op : Z) :
  fetches code s op ->
  In op [OP_THROW; OP_RET; OP_UNWIND; OP_DEFERCONTINUE; OP_CALL] ->
  step code s = Running s' ->
  data_stack s' = data_stack s /\
  (op = OP_THROW ->
   forall top below,
     block_stack s = top :: below -> block_type top = "catch" ->
     instruction_ptr s' = VInt (handler_offset top) /\
     hd_error (data_stack s') = hd_error (data_stack s)).
Proof.
  intros Hf Hop Hstep.
  assert (Hdata : data_stack s' = data_stack s).
  { simpl in Hop.
    destruct Hop as [<- | [<- | [<- | [<- | [<- | []]]]]].
    - rewrite (step_throw _ _ Hf) in Hstep. unfold op_throw in Hstep.
      destruct (last_block "catch" (block_stack s)); [| discriminate].
      destruct (unwind_block _) as [s1 |] eqn:E; [| discriminate].
      injection Hstep as <-. apply unwind_block_data in E. exact E.
    - rewrite (step_ret _ _ Hf) in Hstep. unfold op_ret in Hstep.
      destruct (function_stack s); [discriminate |].
      destruct (must_unwind _ _ _).
      + destruct (unwind_block _) as [s1 |] eqn:E; [| discriminate].
        injection Hstep as <-. apply unwind_block_data in E. exact E.
      + injection Hstep as <-. reflexivity.
    - rewrite (step_unwind _ _ Hf) in Hstep.
      destruct (op_unwind s) as [s1 |] eqn:E; [| discriminate].
      injection Hstep as <-. unfold op_unwind in E.
      ok_cases E; injection E as <-; reflexivity.
    - rewrite (step_defercontinue _ _ Hf) in Hstep.
      destruct (op_defercontinue s) as [s1 |] eqn:E; [| discriminate].
      injection Hstep as <-. unfold op_defercontinue in E.
      destruct (List.length (block_stack s) <? 2)%nat; [discriminate |].
      destruct (block_stack s); [discriminate |].
      destruct (unwind_reason s).
      + apply unwind_block_data in E. exact E.
      + injection E as <-. reflexivity.
    - destruct (step_call _ _ Hf) as (ip & _ & Hs). rewrite Hs in Hstep.
      destruct (op_call code ip s) as [s1 |] eqn:E; [| discriminate].
      injection Hstep as <-. unfold op_call in E.
      ok_cases E. injection E as <-. reflexivity. }
  split; [exact Hdata |].
  intros -> top below Ebs _. split; [| now rewrite Hdata].
  rewrite (step_throw _ _ Hf) in Hstep. unfold op_throw in Hstep.
  destruct (last_block "catch" (block_stack s)); [| discriminate].
  destruct (unwind_block _) as [s1 |] eqn:E; [| discriminate].
  injection Hstep as <-.
  eapply (unwind_exception_target (set_reason (Some UNWIND_EXCEPTION) s));
    [exact Ebs | reflexivity | exact E].
Qed.

Lemma control_transfer_keeps_operands_witness :
  data_stack (state_after throw_across_code 7 (initial_state []))
  = data_stack throw_across_at_throw /\
  (OP_THROW = OP_THROW ->
   forall top below,
     block_stack throw_across_at_throw
     = top :: below ->
     block_type top = "catch" ->
     instruction_ptr (state_after throw_across_code 7 (initial_state []))
     = VInt (handler_offset top) /\
     hd_error (data_stack (state_after throw_across_code 7 (initial_state [])))
     = hd_error
         (data_stack throw_across_at_throw)).
Proof.
  apply (control_transfer_keeps_operands throw_across_code
           throw_across_at_throw
           (state_after throw_across_code 7 (initial_state []))
           OP_THROW).
  - exists (VInt OP_THROW). split; vm_compute; reflexivity.
  - simpl. left. reflexivity.
  - vm_compute. reflexivity.
Defined.

(** ** Setting up a region *)

(** C9.  [OP_SETUPCATCH] reads two inline operands but moves the instruction
    pointer by 2 only; the next iteration then finds the continue label, a
    string, and skips it as it would a label definition.  After these two
    iterations the instruction pointer has moved by 3 and nothing else has
    changed, which is where the single iteration of [OP_SETUPDEFER] leaves
    it. *)
Theorem setupcatch_relies_on_label_skip (code : list value) (s : state)
  (op ip hoff roff : Z) (h : value) (r : string) (F : frame)
  (callers : list frame) :
  as_int (instruction_ptr s) = Some ip ->
  py_getitem code (instruction_ptr s) = Ok (VInt op) ->
  op = OP_SETUPCATCH \/ op = OP_SETUPDEFER ->
  operand code ip 1 = Ok h ->
  operand code ip 2 = Ok (VStr r) ->
  resolve_label code h = Ok hoff ->
  resolve_label code (VStr r) = Ok roff ->
  function_stack s = F :: callers ->
  let ty := if op =? OP_SETUPCATCH then "catch" else "defer" in
  let pushed :=
    set_blocks (Block ty hoff (VInt roff) (last_block ty (block_stack s)) F
                  :: block_stack s) s in
  step code s
  = Running (set_ip (VInt (ip + (if op =? OP_SETUPCATCH then 2 else 3)))
               pushed) /\
  run code (if op =? OP_SETUPCATCH then 2%nat else 1%nat) s
  = Running (set_ip (VInt (ip + 3)) pushed).
Proof.
  intros Hip Hget Hop Hh Hr Hhoff Hroff Efs ty pushed.
  assert (Hf : fetches code s op) by (exists (VInt op); auto).
  destruct (step_fetches _ _ _ Hf) as (o & ip' & Hip' & _ & Hd).
  rewrite Hip in Hip'. injection Hip' as <-.
  assert (Hstep : step code s
            = Running (set_ip
                         (VInt (ip + (if op =? OP_SETUPCATCH then 2 else 3)))
                         pushed)).
  { rewrite Hd. subst ty pushed.
    destruct Hop as [-> | ->];
      [change (dispatch code o OP_SETUPCATCH ip s)
         with (continue (op_setupcatch code ip s))
      | change (dispatch code o OP_SETUPDEFER ip s)
         with (continue (op_setupdefer code ip s))];
      unfold op_setupcatch, op_setupdefer, push_block, bind;
      rewrite Hh, Hr, Efs, Hhoff, Hroff; reflexivity. }
  split; [exact Hstep |].
  destruct Hop as [-> | ->].
  - change (OP_SETUPCATCH =? OP_SETUPCATCH) with true in *. cbv iota in *.
    cbn [run]. rewrite Hstep. unfold step. cbn [instruction_ptr set_ip as_int].
    unfold operand in Hr. rewrite Hr. unfold incip.
    replace (ip + 2 + 1) with (ip + 3) by lia. reflexivity.
  - change (OP_SETUPDEFER =? OP_SETUPCATCH) with false in *. cbv iota in *.
    cbn [run]. rewrite Hstep. reflexivity.
Qed.

Lemma setupcatch_relies_on_label_skip_witness :
  step sample_code_memory
    (state_after sample_code_memory 7 (initial_state [3; 4]))
  = Running (state_after sample_code_memory 8 (initial_state [3; 4])) /\
  run sample_code_memory 2
    (state_after sample_code_memory 7 (initial_state [3; 4]))
  = Running (set_ip (VInt 14)
               (state_after sample_code_memory 8 (initial_state [3; 4]))).
Proof.
  apply (setupcatch_relies_on_label_skip sample_code_memory
           (state_after sample_code_memory 7 (initial_state [3; 4]))
           OP_SETUPCATCH 11 33 38 (VStr "main#L3") "main#L4"
           (Frame (VStr "err") 0 None) []).
  - vm_compute. reflexivity.
  - vm_compute. reflexivity.
  - left. reflexivity.
  - vm_compute. reflexivity.
  - vm_compute. reflexivity.
  - vm_compute. reflexivity.
  - vm_compute. reflexivity.
  - vm_compute. reflexivity.
Defined.

(** ** Returning *)

Lemma last_block_in (ty : string) (bs : list block) (d : block) :
  last_block ty bs = Some d -> In d bs /\ block_type d = ty.
Proof.
  unfold last_block. intros H. apply find_some in H.
  destruct H as [Hin Hty]. split; [assumption | now apply String.eqb_eq].
Qed.

Lemma block_eqb_type (st : store) (b c : block) :
  block_eqb st b c = true -> block_type b = block_type c.
Proof.
  destruct b as [t1 h1 c1 p1 f1], c as [t2 h2 c2 p2 f2]. simpl.
  intros H. repeat (apply andb_prop in H; destruct H as [H _]).
  now apply String.eqb_eq.
Qed.

Lemma split_first_defer (own : list block) (d : block) (ds : list block) :
  filter is_defer own = d :: ds ->
  exists above below,
    own = above ++ d :: below /\
    Forall (fun b => is_defer b = false) above /\
    is_defer d = true /\
    filter is_defer below = ds.
Proof.
  induction own as [| b own IH]; simpl; [discriminate |].
  destruct (is_defer b) eqn:E.
  - intros H. injection H as -> <-. exists [], own. auto.
  - intros H. destruct (IH H) as (above & below & -> & Hab & Hd & Hds).
    exists (b :: above), below. auto.
Qed.

Lemma last_block_first_defer (above below : list block) (d : block) :
  Forall (fun b => is_defer b = false) above -> is_defer d = true ->
  last_block "defer" (above ++ d :: below) = Some d.
Proof.
  unfold last_block, is_defer.
  induction 1 as [| b above Hb _ IH]; simpl; intros Hd.
  - now rewrite Hd.
  - rewrite Hb. auto.
Qed.

Lemma pop_until_first_defer (st : store) (above below : list block)
  (d : block) :
  Forall (fun b => is_defer b = false) above -> is_defer d = true ->
  pop_until st d (above ++ d :: below) = d :: below.
Proof.
  induction 1 as [| b above Hb _ IH]; simpl; intros Hd.
  - now rewrite block_eqb_refl.
  - destruct (block_eqb st b d) eqn:E; [| auto].
    apply block_eqb_type in E. unfold is_defer in Hb, Hd.
    rewrite E, Hd in Hb. discriminate.
Qed.

(** The return unwind when the nearest defer belongs to the returning
    frame. *)
Lemma unwind_return_own_defer (s : state) (F : frame) (callers : list frame)
  (d : block) :
  unwind_reason s = Some UNWIND_RETURN ->
  function_stack s = F :: callers ->
  last_block "defer" (block_stack s) = Some d ->
  frame_eqb (heap s) (active_frame d) F = true ->
  unwind_block s
  = Ok (set_ip (VInt (handler_offset d))
          (set_blocks (pop_until (heap s) d (block_stack s)) s)).
Proof.
  intros Hr Efs Hd Hown. unfold unwind_block.
  destruct (block_stack s) as [| top below] eqn:Ebs; [discriminate |].
  rewrite Efs, Hr, Hd, Hown. reflexivity.
Qed.

Lemma continues_through_own_defers (code : list value) (rest : list block)
  (F : frame) (callers : list frame) (ds : list block) :
  forall (s : state) (d0 : block) (below : list block),
    function_stack s = F :: callers ->
    unwind_reason s = Some UNWIND_RETURN ->
    block_stack s = d0 :: below ++ rest ->
    Forall (fun b => active_frame b = F) below ->
    filter is_defer below = ds ->
    continues_through code s ds.
Proof.
  induction ds as [| d ds IH]; intros s d0 below Efs Er Ebs Hown Hds;
    [exact I |].
  intros s1 (Hfs1 & Hbs1 & Hr1) Hf.
  destruct (split_first_defer _ _ _ Hds)
    as (above & below' & -> & Hab & Hd & Hds').
  rewrite Efs in Hfs1. rewrite Ebs in Hbs1. rewrite Er in Hr1.
  assert (Hd_own : active_frame d = F).
  { rewrite Forall_forall in Hown. apply Hown.
    apply in_or_app. right. now left. }
  rewrite (step_defercontinue _ _ Hf). unfold op_defercontinue.
  rewrite Hbs1, Hr1.
  replace (List.length (d0 :: (above ++ d :: below') ++ rest) <? 2)%nat
    with false
    by (symmetry; apply Nat.ltb_ge; simpl; rewrite !length_app; simpl; lia).
  rewrite (unwind_return_own_defer _ F callers d); proj; auto.
  - rewrite <- app_assoc. simpl.
    rewrite (pop_until_first_defer _ _ _ _ Hab Hd).
    eexists. split; [reflexivity |]. proj.
    split; [reflexivity |]. split; [reflexivity |].
    split; [congruence |]. split; [assumption |].
    apply (IH _ d below'); proj; auto.
    apply Forall_app in Hown. destruct Hown as [_ Hown].
    eapply Forall_tail; eassumption.
  - rewrite <- app_assoc. simpl. apply last_block_first_defer; assumption.
  - rewrite Hd_own. apply frame_eqb_refl.
Qed.

(** After the body of the last defer of the frame, the continue pops it and
    the return completes, provided some block of another frame lies
    underneath. *)
Lemma last_continue_completes_return (code : list value) (s : state)
  (F : frame) (callers : list frame) (d next : block) (rest : list block) :
  well_formed s ->
  fetches code s OP_DEFERCONTINUE ->
  unwind_reason s = Some UNWIND_RETURN ->
  function_stack s = F :: callers ->
  block_stack s = d :: next :: rest ->
  Forall (fun b => active_frame b <> F) (next :: rest) ->
  exists s',
    step code s = Running s' /\
    function_stack s' = callers /\
    block_stack s' = next :: rest /\
    instruction_ptr s' = return_address F.
Proof.
  intros Hwf Hf Hr Efs Ebs Hothers.
  apply (well_formed_pop_block s d (next :: rest) Ebs) in Hwf.
  destruct Hwf as [Hal _ _ _]. proj. rewrite Efs in Hal.
  rewrite (step_defercontinue _ _ Hf). unfold op_defercontinue.
  rewrite Ebs, Hr. cbn [List.length Nat.ltb Nat.leb].
  assert (Hnext : frame_eqb (heap s) (active_frame next) F = false).
  { destruct (frame_eqb (heap s) (active_frame next) F) eqn:E;
      [| reflexivity].
    apply (owner_eqb_top _ _ _ _ Hal) in E; [| now left].
    inversion Hothers; contradiction. }
  unfold unwind_block. proj. rewrite Efs, Hr.
  destruct (last_block "defer" (next :: rest)) as [d' |] eqn:Hd.
  - assert (Hd' : frame_eqb (heap s) (active_frame d') F = false).
    { destruct (frame_eqb (heap s) (active_frame d') F) eqn:E;
        [| reflexivity].
      destruct (last_block_in _ _ _ Hd) as [Hin _].
      apply (owner_eqb_top _ _ _ _ Hal) in E; [| assumption].
      rewrite Forall_forall in Hothers. apply Hothers in Hin.
      contradiction. }
    rewrite Hd'. eexists. split; [reflexivity |]. proj.
    cbn [pop_owned]. rewrite Hnext. auto.
  - eexists. split; [reflexivity |]. proj.
    cbn [pop_owned]. rewrite Hnext. auto.
Qed.

(** C4.  A return whose frame [F] owns the blocks [own] on top of the block
    stack, the defers among them being [d :: ds] from the top: the blocks
    above [d] are dropped without running, the instruction pointer becomes
    the handler offset of [d], [d] and the frame stay where they are and the
    reason is [UNWIND_RETURN].  Each [OP_DEFERCONTINUE] that ends a handler
    body then activates the next defer of [ds], provided the body reaches it
    with the call stack, the block stack and the reason as they were when
    the body was entered ([body_ran]): then the handlers run from the last
    defer set up to the first, one after the other.  The machine has a
    single reason and nothing saves it across a call, so a body that calls a
    function with blocks of its own does not meet the proviso. *)
Theorem return_runs_defers_lifo (code : list value) (s : state) (F : frame)
  (callers : list frame) (own rest : list block) (d : block)
  (ds : list block) :
  fetches code s OP_RET ->
  function_stack s = F :: callers ->
  block_stack s = own ++ rest ->
  Forall (fun b => active_frame b = F) own ->
  filter is_defer own = d :: ds ->
  exists above below,
    own = above ++ d :: below /\
    Forall (fun b => is_defer b = false) above /\
    step code s
    = Running (set_ip (VInt (handler_offset d))
                 (set_blocks (d :: below ++ rest)
                    (set_reason (Some UNWIND_RETURN) s))) /\
    continues_through code
      (set_ip (VInt (handler_offset d))
         (set_blocks (d :: below ++ rest)
            (set_reason (Some UNWIND_RETURN) s)))
      ds.
Proof.
  intros Hf Efs Ebs Hown Hds.
  destruct (split_first_defer _ _ _ Hds)
    as (above & below & -> & Hab & Hd & Hds').
  exists above, below. split; [reflexivity |]. split; [assumption |].
  assert (Hd_own : active_frame d = F).
  { rewrite Forall_forall in Hown. apply Hown.
    apply in_or_app. right. now left. }
  split.
  - rewrite (step_ret _ _ Hf). unfold op_ret. rewrite Efs.
    assert (Hm : must_unwind (heap s) F (block_stack s) = true).
    { rewrite Ebs. destruct above as [| a above]; simpl.
      - now rewrite (marker_differs_from_own_block _ _ _ Hd_own).
      - inversion Hown as [| ? ? Ha _]; subst.
        now rewrite (marker_differs_from_own_block _ _ _ Ha). }
    rewrite Hm.
    rewrite (unwind_return_own_defer _ F callers d); proj; auto.
    + rewrite Ebs, <- app_assoc. simpl.
      rewrite (pop_until_first_defer _ _ _ _ Hab Hd). reflexivity.
    + rewrite Ebs, <- app_assoc. simpl.
      apply last_block_first_defer; assumption.
    + rewrite Hd_own. apply frame_eqb_refl.
  - apply (continues_through_own_defers code rest F callers ds _ d below);
      proj; auto.
    apply Forall_app in Hown. destruct Hown as [_ Hown].
    eapply Forall_tail; eassumption.
Qed.

Lemma return_runs_defers_lifo_witness :
  exists above below,
    firstn 3 (block_stack two_defers_at_ret)
    = above ++ nth 0 (block_stack two_defers_at_ret) default_block :: below /\
    Forall (fun b => is_defer b = false) above /\
    step two_defers_code two_defers_at_ret
    = Running
        (set_ip (VInt (handler_offset
                         (nth 0 (block_stack two_defers_at_ret)
                            default_block)))
           (set_blocks
              (nth 0 (block_stack two_defers_at_ret) default_block
                 :: below ++ skipn 3 (block_stack two_defers_at_ret))
              (set_reason (Some UNWIND_RETURN) two_defers_at_ret))) /\
    continues_through two_defers_code
      (set_ip (VInt (handler_offset
                       (nth 0 (block_stack two_defers_at_ret) default_block)))
         (set_blocks
            (nth 0 (block_stack two_defers_at_ret) default_block
               :: below ++ skipn 3 (block_stack two_defers_at_ret))
            (set_reason (Some UNWIND_RETURN) two_defers_at_ret)))
      [nth 2 (block_stack two_defers_at_ret) default_block].
Proof.
  apply (return_runs_defers_lifo two_defers_code two_defers_at_ret
           (hd default_frame (function_stack two_defers_at_ret))
           (tl (function_stack two_defers_at_ret))
           (firstn 3 (block_stack two_defers_at_ret))
           (skipn 3 (block_stack two_defers_at_ret))
           (nth 0 (block_stack two_defers_at_ret) default_block)
           [nth 2 (block_stack two_defers_at_ret) default_block]).
  - exists (VInt OP_RET). split; vm_compute; reflexivity.
  - vm_compute. reflexivity.
  - vm_compute. reflexivity.
  - vm_compute. repeat constructor.
  - vm_compute. reflexivity.
Defined.

(** The proviso of C4 is needed.  In [nested_defer_code] the function [f]
    sets up the defers D1 and D2 and returns.  The body of D2 prints its
    line and calls [g], which returns out of a catch region of its own; that
    return clears the reason.  The [OP_DEFERCONTINUE] of D2 then leaves
    through the continue offset of D2: the program exits with code 99, the
    handler of D1 is never entered and the frame of [f] is never popped. *)
Lemma nested_return_abandons_first_defer :
  fetches nested_defer_code nested_defer_at_ret OP_RET /\
  exists F callers D2 D1 rest s,
    function_stack nested_defer_at_ret = F :: callers /\
    block_stack nested_defer_at_ret = D2 :: D1 :: rest /\
    active_frame D2 = F /\ active_frame D1 = F /\
    filter is_defer [D2; D1] = [D2; D1] /\
    step nested_defer_code nested_defer_at_ret
    = Running (set_ip (VInt (handler_offset D2))
                 (set_reason (Some UNWIND_RETURN) nested_defer_at_ret)) /\
    run nested_defer_code 13 nested_defer_at_ret = Exited s /\
    exit_code s = VInt 99 /\
    stdout s = [printed (VStr "second defer")] /\
    function_stack s = F :: callers /\
    block_stack s = D1 :: rest /\
    forallb
      (fun k =>
         negb (py_eq (instruction_ptr
                        (state_after nested_defer_code k nested_defer_at_ret))
                     (VInt (handler_offset D1))))
      (seq 0 14) = true.
Proof.
  split.
  - exists (VInt OP_RET). split; vm_compute; reflexivity.
  - exists (hd default_frame (function_stack nested_defer_at_ret)),
      (tl (function_stack nested_defer_at_ret)),
      (nth 0 (block_stack nested_defer_at_ret) default_block),
      (nth 1 (block_stack nested_defer_at_ret) default_block),
      (skipn 2 (block_stack nested_defer_at_ret)),
      (state_after nested_defer_code 13 nested_defer_at_ret).
    repeat (apply conj; [vm_compute; reflexivity |]).
    vm_compute. reflexivity.
Qed.

Lemma pop_owned_keeps_last (st : store) (ty : string) (F : frame)
  (bs : list block) (d : block) :
  last_block ty bs = Some d ->
  frame_eqb st (active_frame d) F = false ->
  last_block ty (pop_owned st F bs) = Some d.
Proof.
  unfold last_block.
  induction bs as [| b bs IH]; simpl; intros Hd Hown; [discriminate |].
  destruct (frame_eqb st (active_frame b) F) eqn:E; [| exact Hd].
  destruct (String.eqb (block_type b) ty); [| auto].
  injection Hd as ->. congruence.
Qed.

(** What a return unwind can do: either it pops the returning frame and
    goes to its return address, or it enters the nearest defer, which then
    is owned by ([==]) the returning frame, and keeps the frame. *)
Lemma return_unwind_cases (s s' : state) (F : frame) (callers : list frame) :
  unwind_reason s = Some UNWIND_RETURN ->
  function_stack s = F :: callers ->
  unwind_block s = Ok s' ->
  (function_stack s' = callers /\ instruction_ptr s' = return_address F) \/
  (exists d,
     last_block "defer" (block_stack s) = Some d /\
     frame_eqb (heap s) (active_frame d) F = true /\
     function_stack s' = F :: callers /\
     instruction_ptr s' = VInt (handler_offset d)).
Proof.
  intros Hr Efs H. unfold unwind_block in H.
  destruct (block_stack s) as [| top below] eqn:Ebs; [discriminate |].
  rewrite Efs, Hr in H.
  destruct (last_block "defer" (top :: below)) as [d |] eqn:Hd.
  - destruct (frame_eqb (heap s) (active_frame d) F) eqn:E;
      injection H as <-; proj; [right | left]; eauto.
  - injection H as <-. left. auto.
Qed.

(** C5.  A return unwind that finds the nearest defer owned by another frame
    (a caller) pops the returning frame, moves the instruction pointer to its
    return address and clears the reason.  The blocks it drops are the blocks
    of the returning frame, none of which is left; the caller's defer is not
    entered and is still the nearest defer afterwards. *)
Theorem return_leaves_outer_defer (s : state) (F : frame)
  (callers : list frame) (d : block) :
  well_formed s ->
  unwind_reason s = Some UNWIND_RETURN ->
  function_stack s = F :: callers ->
  last_block "defer" (block_stack s) = Some d ->
  active_frame d <> F ->
  exists s' dropped,
    unwind_block s = Ok s' /\
    function_stack s' = callers /\
    instruction_ptr s' = return_address F /\
    unwind_reason s' = None /\
    block_stack s = dropped ++ block_stack s' /\
    Forall (fun b => active_frame b = F) dropped /\
    (forall b, In b (block_stack s') -> active_frame b <> F) /\
    last_block "defer" (block_stack s') = Some d.
Proof.
  intros [Hal _ _ Hnd] Hr Efs Hd Hown. rewrite Efs in Hal, Hnd.
  assert (Hne : frame_eqb (heap s) (active_frame d) F = false).
  { destruct (frame_eqb (heap s) (active_frame d) F) eqn:E; [| reflexivity].
    exfalso. apply Hown.
    apply (owner_eqb_top (heap s) F callers _ Hal); [| assumption].
    apply (last_block_in _ _ _ Hd). }
  destruct (pop_owned_exact (heap s) F callers _ Hal)
    as (dropped & Hsplit & Hdropped).
  exists (set_blocks (pop_owned (heap s) F (block_stack s))
            (set_frames callers
               (set_reason None (set_ip (return_address F) s)))),
    dropped.
  split.
  - unfold unwind_block.
    destruct (block_stack s) as [| top below] eqn:Ebs; [discriminate |].
    rewrite Efs, Hr, Hd, Hne. reflexivity.
  - proj. repeat split; auto.
    + intros b Hin Hb.
      apply (aligned_pop_owned (heap s)) in Hal.
      apply (aligned_owner_in _ _ Hal) in Hin.
      rewrite Hb in Hin. inversion Hnd; contradiction.
    + apply pop_owned_keeps_last; assumption.
Qed.

Lemma well_formed_set_reason (r : option reason) (s : state) :
  well_formed s -> well_formed (set_reason r s).
Proof. intros [? ? ? ?]; constructor; assumption. Qed.

Lemma return_leaves_outer_defer_witness :
  exists s' dropped,
    unwind_block (set_reason (Some UNWIND_RETURN) outer_defer_at_ret)
    = Ok s' /\
    function_stack s' = [Frame (VStr "err") 0 None] /\
    instruction_ptr s' = VInt 9 /\
    unwind_reason s' = None /\
    block_stack (set_reason (Some UNWIND_RETURN) outer_defer_at_ret)
    = dropped ++ block_stack s' /\
    Forall (fun b =>
              active_frame b
              = hd default_frame (function_stack outer_defer_at_ret))
           dropped /\
    (forall b, In b (block_stack s') ->
               active_frame b
               <> hd default_frame (function_stack outer_defer_at_ret)) /\
    last_block "defer" (block_stack s')
    = Some (Block "defer" 17 (VInt 21) None (Frame (VStr "err") 0 None)).
Proof.
  apply (return_leaves_outer_defer
           (set_reason (Some UNWIND_RETURN) outer_defer_at_ret)
           (hd default_frame (function_stack outer_defer_at_ret))
           [Frame (VStr "err") 0 None]
           (Block "defer" 17 (VInt 21) None (Frame (VStr "err") 0 None))).
  - apply well_formed_set_reason.
    apply (reachable_wf outer_defer_code []).
    apply (reachable_after outer_defer_code [] 8).
    vm_compute. eexists. reflexivity.
  - reflexivity.
  - vm_compute. reflexivity.
  - vm_compute. reflexivity.
  - vm_compute. discriminate.
Defined.

(** The return unwind when no defer is left anywhere: the blocks of the
    frame go, the frame goes, and [unwind_reason] is not touched. *)
Lemma unwind_return_no_defer (s : state) (F : frame) (callers : list frame) :
  unwind_reason s = Some UNWIND_RETURN ->
  function_stack s = F :: callers ->
  block_stack s <> [] ->
  has_block "defer" (block_stack s) = false ->
  unwind_block s
  = Ok (set_frames callers
          (set_ip (return_address F)
             (set_blocks (pop_owned (heap s) F (block_stack s)) s))).
Proof.
  intros Hr Efs Hne Hd. unfold unwind_block.
  destruct (block_stack s) as [| top below] eqn:Ebs; [congruence |].
  rewrite Efs, Hr, (has_block_none _ _ Hd). reflexivity.
Qed.

(** C2.  [catch_return_code] reaches the [OP_RET] of [f] with one catch
    block, owned by the returning frame, and no defer anywhere.  The return
    unwind drops the block, pops the frame and moves the instruction pointer
    to the return address 3, but [unwind_reason] is still [UNWIND_RETURN]
    when the step is over. *)
Theorem return_without_defer_keeps_reason :
  fetches catch_return_code catch_return_at_ret OP_RET /\
  unwind_reason catch_return_at_ret = None /\
  has_block "defer" (block_stack catch_return_at_ret) = false /\
  owns_top_block catch_return_at_ret = true /\
  step catch_return_code catch_return_at_ret
  = Running
      (mkState [] [Frame (VStr "err") 0 None] [] (Some UNWIND_RETURN)
         (VInt 3) (VInt 0)
         [[VInt 0; VInt 0; VInt 0; VInt 0]; fresh_locals] [] []).
Proof.
  split; [exists (VInt OP_RET); split; vm_compute; reflexivity |].
  repeat split; vm_compute; reflexivity.
Qed.

(** What the reason left behind does later.  [return_then_defer_code] calls
    [f], which returns out of a catch region as above; back in [main] a defer
    region is left by an explicit scope exit.  The [OP_DEFERCONTINUE] of its
    handler finds [unwind_reason] still set, runs a return unwind on the
    initial frame instead of going to the continue offset, and the next fetch
    fails on the return address ["err"]. *)
Lemma stale_reason_derails_continue :
  fetches return_then_defer_code
    (state_after return_then_defer_code 11 (initial_state []))
    OP_DEFERCONTINUE /\
  unwind_reason (state_after return_then_defer_code 11 (initial_state []))
  = Some UNWIND_RETURN /\
  List.length
    (block_stack (state_after return_then_defer_code 11 (initial_state [])))
  = 2%nat /\
  step return_then_defer_code
    (state_after return_then_defer_code 11 (initial_state []))
  = Running
      (mkState [] [] [] (Some UNWIND_RETURN) (VStr "err") (VInt 0)
         [[VInt 0; VInt 0; VInt 0; VInt 0]; fresh_locals] [] []) /\
  run return_then_defer_code 13 (initial_state []) = Crashed TypeError.
Proof.
  split; [exists (VInt OP_DEFERCONTINUE); split; vm_compute; reflexivity |].
  repeat split; vm_compute; reflexivity.
Qed.

(** ** The condition under which a return unwinds *)

Lemma step_ret_direct_or_unwind (code : list value) (s : state) (F : frame)
  (callers : list frame) :
  fetches code s OP_RET ->
  function_stack s = F :: callers ->
  step code s
  = if must_unwind (heap s) F (block_stack s)
    then continue (unwind_block (set_reason (Some UNWIND_RETURN) s))
    else direct_return s.
Proof.
  intros Hf Efs. rewrite (step_ret _ _ Hf). unfold op_ret, direct_return.
  rewrite Efs. destruct (must_unwind _ _ _); reflexivity.
Qed.

(** C6, with the test the code makes.  [OP_RET] starts a return unwind
    exactly when the block stack is not empty and its topmost block differs
    from the block marker of the returning frame, the block that was on top
    when the frame was created; otherwise it pops the frame and jumps to its
    return address.  A topmost block owned by the returning frame always
    differs from the marker, so such a return always unwinds. *)
Theorem ret_unwinds_iff_marker_differs (code : list value) (s : state)
  (F : frame) (callers : list frame) :
  fetches code s OP_RET ->
  function_stack s = F :: callers ->
  step code s
  = match block_stack s with
    | [] => direct_return s
    | top :: _ =>
        if oblock_eqb (heap s) (block_marker F) (Some top)
        then direct_return s
        else continue (unwind_block (set_reason (Some UNWIND_RETURN) s))
    end /\
  (forall top below,
     block_stack s = top :: below -> active_frame top = F ->
     step code s
     = continue (unwind_block (set_reason (Some UNWIND_RETURN) s))).
Proof.
  intros Hf Efs. rewrite (step_ret_direct_or_unwind _ _ _ _ Hf Efs).
  split.
  - unfold must_unwind. destruct (block_stack s) as [| top below];
      [reflexivity |].
    destruct (oblock_eqb _ _ _); reflexivity.
  - intros top below Ebs Hown. rewrite Ebs. unfold must_unwind.
    now rewrite (marker_differs_from_own_block _ _ _ Hown).
Qed.

Lemma ret_unwinds_iff_marker_differs_witness :
  step stray_unwind_code stray_unwind_at_ret
  = match block_stack stray_unwind_at_ret with
    | [] => direct_return stray_unwind_at_ret
    | top :: _ =>
        if oblock_eqb (heap stray_unwind_at_ret)
             (block_marker
                (hd default_frame (function_stack stray_unwind_at_ret)))
             (Some top)
        then direct_return stray_unwind_at_ret
        else continue
               (unwind_block
                  (set_reason (Some UNWIND_RETURN) stray_unwind_at_ret))
    end /\
  (forall top below,
     block_stack stray_unwind_at_ret = top :: below ->
     active_frame top
     = hd default_frame (function_stack stray_unwind_at_ret) ->
     step stray_unwind_code stray_unwind_at_ret
     = continue
         (unwind_block
            (set_reason (Some UNWIND_RETURN) stray_unwind_at_ret))).
Proof.
  apply (ret_unwinds_iff_marker_differs stray_unwind_code
           stray_unwind_at_ret
           (hd default_frame (function_stack stray_unwind_at_ret))
           (tl (function_stack stray_unwind_at_ret))).
  - exists (VInt OP_RET). split; vm_compute; reflexivity.
  - vm_compute. reflexivity.
Defined.

(** C6 with the owner test fails in a state the machine reaches.  In
    [stray_unwind_code] the callee [f] leaves one of its caller's catch
    regions and then returns: the topmost block belongs to the caller, not to
    the returning frame, and still the return goes through [unwind_block]
    and ends in a state that a direct pop does not produce. *)
Lemma ret_unwinds_over_foreign_block :
  reachable stray_unwind_code [] stray_unwind_at_ret /\
  fetches stray_unwind_code stray_unwind_at_ret OP_RET /\
  block_stack stray_unwind_at_ret <> [] /\
  owns_top_block stray_unwind_at_ret = false /\
  step stray_unwind_code stray_unwind_at_ret
  = continue
      (unwind_block (set_reason (Some UNWIND_RETURN) stray_unwind_at_ret)) /\
  step stray_unwind_code stray_unwind_at_ret
  <> direct_return stray_unwind_at_ret.
Proof.
  split.
  { apply (reachable_after stray_unwind_code [] 9).
    vm_compute. eexists. reflexivity. }
  split; [exists (VInt OP_RET); split; vm_compute; reflexivity |].
  split; [vm_compute; discriminate |].
  split; [vm_compute; reflexivity |].
  split; [vm_compute; reflexivity |].
  vm_compute. discriminate.
Qed.

(** ** Leaving a region without an unwind in progress *)

Lemma scope_exit_catch (code : list value) (s : state) (top : block)
  (below : list block) :
  fetches code s OP_UNWIND ->
  block_stack s = top :: below ->
  block_type top = "catch" ->
  step code s
  = Running (set_blocks below (set_ip (continue_offset top) s)).
Proof.
  intros Hf Ebs Hty. rewrite (step_unwind _ _ Hf). unfold op_unwind.
  rewrite Ebs, Hty. reflexivity.
Qed.

Lemma scope_exit_defer (code : list value) (s : state) (top : block)
  (below : list block) :
  fetches code s OP_UNWIND ->
  block_stack s = top :: below ->
  block_type top = "defer" ->
  step code s = Running (set_ip (VInt (handler_offset top)) s).
Proof.
  intros Hf Ebs Hty. rewrite (step_unwind _ _ Hf). unfold op_unwind.
  rewrite Ebs, Hty. reflexivity.
Qed.

(** With a second block underneath, the continue that ends the handler body
    pops the defer and goes to its continue offset. *)
Lemma continue_after_scope_exit (code : list value) (s : state)
  (top next : block) (below : list block) :
  fetches code s OP_DEFERCONTINUE ->
  unwind_reason s = None ->
  block_stack s = top :: next :: below ->
  step code s
  = Running (set_ip (continue_offset top) (set_blocks (next :: below) s)).
Proof.
  intros Hf Hr Ebs. rewrite (step_defercontinue _ _ Hf).
  unfold op_defercontinue. rewrite Ebs, Hr. reflexivity.
Qed.

(** With the defer alone on the block stack, the same continue raises. *)
Lemma continue_with_one_block (code : list value) (s : state) (top : block) :
  fetches code s OP_DEFERCONTINUE ->
  block_stack s = [top] ->
  step code s = Crashed (Exception "empty block stack").
Proof.
  intros Hf Ebs. rewrite (step_defercontinue _ _ Hf).
  unfold op_defercontinue. rewrite Ebs. reflexivity.
Qed.

(** C7.  [lone_defer_code] sets up one defer region and leaves it by
    [OP_UNWIND]: the instruction pointer goes to the handler (offset 5), the
    block stays and no unwind is in progress.  The [OP_DEFERCONTINUE] that
    ends the handler then raises "empty block stack" although the defer is
    on the block stack; it neither pops the block nor reaches the continue
    offset 7. *)
Theorem lone_defer_continue_raises :
  step lone_defer_code (state_after lone_defer_code 2 (initial_state []))
  = Running
      (mkState [] [Frame (VStr "err") 0 None]
         [Block "defer" 5 (VInt 7) None (Frame (VStr "err") 0 None)]
         None (VInt 5) (VInt 0) [[VInt 0; VInt 0; VInt 0; VInt 0]] [] []) /\
  fetches lone_defer_code lone_defer_at_continue OP_DEFERCONTINUE /\
  unwind_reason lone_defer_at_continue = None /\
  block_stack lone_defer_at_continue
  = [Block "defer" 5 (VInt 7) None (Frame (VStr "err") 0 None)] /\
  step lone_defer_code lone_defer_at_continue
  = Crashed (Exception "empty block stack").
Proof.
  split; [vm_compute; reflexivity |].
  split; [exists (VInt OP_DEFERCONTINUE); split; vm_compute; reflexivity |].
  repeat split; vm_compute; reflexivity.
Qed.

(** * The remaining operations *)

(** ** Label resolution *)

Lemma py_eq_str (v : value) (t : string) :
  py_eq v (VStr t) = true -> v = VStr t.
Proof.
  destruct v as [z | s | [|] | ]; simpl; try discriminate.
  intros H. apply String.eqb_eq in H. now subst.
Qed.

Lemma index_from_spec (x : value) (l : list value) :
  forall k off,
    index_from x l k = Ok off ->
    exists pre v post,
      l = pre ++ v :: post /\ py_eq v x = true /\
      Forall (fun u => py_eq u x = false) pre /\
      off = k + Z.of_nat (List.length pre).
Proof.
  induction l as [| u l IH]; simpl; intros k off H; [discriminate |].
  destruct (py_eq u x) eqn:E.
  - injection H as <-. exists [], u, l. simpl. repeat split; auto. lia.
  - destruct (IH _ _ H) as (pre & v & post & -> & Hv & Hpre & ->).
    exists (u :: pre), v, post. simpl. repeat split; auto. lia.
Qed.

Lemma index_from_raises (x : value) (l : list value) :
  forall k e, index_from x l k = Raise e ->
              e = ValueError /\ Forall (fun u => py_eq u x = false) l.
Proof.
  induction l as [| u l IH]; simpl; intros k e H.
  - injection H as <-. auto.
  - destruct (py_eq u x) eqn:E; [discriminate |].
    destruct (IH _ _ H) as [-> Hall]. auto.
Qed.

Lemma py_getitem_middle {A : Type} (pre post : list A) (a : A) :
  py_getitem (pre ++ a :: post) (VInt (Z.of_nat (List.length pre))) = Ok a.
Proof.
  unfold py_getitem, py_pos. cbn [as_int].
  rewrite length_app. cbn [List.length].
  destruct (0 <=? Z.of_nat (List.length pre)) eqn:E1;
    [| apply Z.leb_gt in E1; lia].
  destruct (Z.of_nat (List.length pre)
            <? Z.of_nat (List.length pre + S (List.length post))) eqn:E2;
    [| apply Z.ltb_ge in E2; lia].
  rewrite Nat2Z.id, nth_error_app2 by lia.
  now rewrite Nat.sub_diag.
Qed.

(** X1.  When [resolve_label] returns an offset, the cell at that offset is
    the label's definition (the label with a dot in front), no earlier cell
    is, and the offset is a plain index into the program, so that fetching
    there reads the definition. *)
Theorem resolve_label_first_definition (code : list value) (label : value)
  (off : Z) :
  resolve_label code label = Ok off ->
  0 <= off < Z.of_nat (List.length code) /\
  py_getitem code (VInt off) = Ok (label_cell label) /\
  (forall k, 0 <= k < off ->
             py_getitem code (VInt k) <> Ok (label_cell label)).
Proof.
  unfold resolve_label. fold (label_cell label). intros H.
  destruct (index_from_spec _ _ _ _ H)
    as (pre & v & post & -> & Hv & Hpre & ->).
  apply py_eq_str in Hv. subst v. rewrite Z.add_0_l.
  split; [rewrite length_app; simpl; lia |].
  split; [apply py_getitem_middle |].
  intros k Hk Hget.
  rewrite Forall_forall in Hpre.
  assert (Hin : In (label_cell label) pre).
  { unfold py_getitem, py_pos in Hget. cbn [as_int] in Hget.
    destruct (0 <=? k) eqn:E1; [| apply Z.leb_gt in E1; lia].
    destruct (_ <? _); [| discriminate].
    destruct (nth_error _ _) as [a |] eqn:En; [| discriminate].
    injection Hget as ->.
    rewrite nth_error_app1 in En by lia.
    eapply nth_error_In; eassumption. }
  apply Hpre in Hin. unfold label_cell in Hin. simpl in Hin.
  rewrite String.eqb_refl in Hin. discriminate.
Qed.

Lemma resolve_label_first_definition_witness :
  0 <= 33 < Z.of_nat (List.length sample_code_memory) /\
  py_getitem sample_code_memory (VInt 33) = Ok (label_cell (VStr "main#L3")) /\
  (forall k, 0 <= k < 33 ->
             py_getitem sample_code_memory (VInt k)
             <> Ok (label_cell (VStr "main#L3"))).
Proof.
  apply (resolve_label_first_definition sample_code_memory (VStr "main#L3") 33).
  vm_compute. reflexivity.
Defined.

(** X2.  [resolve_label] succeeds exactly on the labels that are defined
    somewhere in the program; for any other label it raises [ValueError] and
    nothing else. *)
Theorem resolve_label_defined_or_value_error (code : list value)
  (label : value) :
  (In (label_cell label) code /\
   exists off, resolve_label code label = Ok off) \/
  (~ In (label_cell label) code /\
   resolve_label code label = Raise ValueError).
Proof.
  unfold resolve_label. fold (label_cell label).
  destruct (index_from (label_cell label) code 0) as [off | e] eqn:H.
  - left. split; [| eauto].
    destruct (index_from_spec _ _ _ _ H) as (pre & v & post & -> & Hv & _).
    apply py_eq_str in Hv. subst v. apply in_or_app. right. now left.
  - right. destruct (index_from_raises _ _ _ _ H) as [-> Hall].
    split; [| reflexivity].
    intros Hin. rewrite Forall_forall in Hall. apply Hall in Hin.
    unfold label_cell in Hin. simpl in Hin.
    rewrite String.eqb_refl in Hin. discriminate.
Qed.

(** ** The nearest block of a type *)

(** X3.  [last_block] returns the block of the wanted type that is nearest
    to the top: every block above it has another type; it returns nothing
    exactly when no block of that type is on the stack. *)
Theorem last_block_is_nearest (ty : string) (bs : list block) :
  match last_block ty bs with
  | Some d =>
      exists above below,
        bs = above ++ d :: below /\ block_type d = ty /\
        Forall (fun b => block_type b <> ty) above
  | None => Forall (fun b => block_type b <> ty) bs
  end.
Proof.
  unfold last_block. induction bs as [| b bs IH]; simpl; [constructor |].
  destruct (String.eqb (block_type b) ty) eqn:E.
  - apply String.eqb_eq in E. exists [], bs. auto.
  - apply String.eqb_neq in E.
    destruct (find (fun b0 => String.eqb (block_type b0) ty) bs) as [d |].
    + destruct IH as (above & below & -> & Hd & Hab).
      exists (b :: above), below. auto.
    + constructor; assumption.
Qed.

(** ** What one iteration can do to the two stacks and the store *)

Lemma unwind_block_shape (s s' : state) :
  unwind_block s = Ok s' ->
  (exists pre, block_stack s = pre ++ block_stack s') /\
  (exists popped, function_stack s = popped ++ function_stack s') /\
  heap s' = heap s.
Proof.
  unfold unwind_block. intros H.
  destruct (block_stack s) as [| top below] eqn:Ebs; [discriminate |].
  destruct (function_stack s) as [| top_frame callers] eqn:Efs;
    [discriminate |].
  destruct (unwind_reason s) as [[|] |]; [| | discriminate].
  - destruct (unwind_frames (heap s) (active_frame top) (top_frame :: callers))
      as [fs |] eqn:Euf; [| discriminate].
    destruct (unwind_frames_spec _ _ _ _ Euf)
      as (popped & k & kept & Hfs & -> & _ & _).
    destruct (String.eqb (block_type top) "catch");
      [| destruct (String.eqb (block_type top) "defer"); [| discriminate]];
      injection H as <-; proj; rewrite ?Ebs.
    + split; [exists [top]; reflexivity |]. split; [eauto | reflexivity].
    + split; [exists []; reflexivity |]. split; [eauto | reflexivity].
  - destruct (pop_owned_suffix (heap s) top_frame (top :: below))
      as (pre1 & Hpre1 & _).
    destruct (last_block "defer" (top :: below)) as [d |];
      [destruct (pop_until_suffix (heap s) d (top :: below))
         as (pre2 & Hpre2 & _);
       destruct (frame_eqb (heap s) (active_frame d) top_frame) |];
      injection H as <-; proj; rewrite ?Efs.
    + split; [eauto |]. split; [exists []; reflexivity | reflexivity].
    + split; [eauto |]. split; [exists [top_frame]; reflexivity | reflexivity].
    + split; [eauto |]. split; [exists [top_frame]; reflexivity | reflexivity].
Qed.

Lemma push_block_shape (code : list value) (ty : string) (h c : value)
  (s s' : state) :
  push_block code ty h c s = Ok s' ->
  exists ho co F callers,
    function_stack s = F :: callers /\
    resolve_label code h = Ok ho /\
    s' = set_blocks (Block ty ho co (last_block ty (block_stack s)) F
                       :: block_stack s) s.
Proof.
  unfold push_block. intros H.
  destruct (function_stack s) as [| F callers]; [discriminate |].
  ok_cases H; injection H as <-; repeat eexists.
Qed.

(** An iteration either pops blocks or pushes one block made by
    [push_block]; it either pops frames, leaving the store as long as it was,
    or pushes one frame with a newly allocated locals list. *)
Lemma step_shape (code : list value) (s s' : state) :
  step code s = Running s' ->
  ((exists pre, block_stack s = pre ++ block_stack s') \/
   (exists ty h c F callers,
      function_stack s = F :: callers /\
      block_stack s'
      = Block ty h c (last_block ty (block_stack s)) F :: block_stack s)) /\
  ((exists popped,
      function_stack s = popped ++ function_stack s' /\
      List.length (heap s') = List.length (heap s)) \/
   (exists r m,
      function_stack s'
      = Frame r (List.length (heap s)) m :: function_stack s /\
      heap s' = heap s ++ [fresh_locals])).
Proof.
  assert (Hsame : forall s1 : state,
             block_stack s1 = block_stack s ->
             function_stack s1 = function_stack s ->
             List.length (heap s1) = List.length (heap s) ->
             ((exists pre, block_stack s = pre ++ block_stack s1) \/
              (exists ty h c F callers,
                 function_stack s = F :: callers /\
                 block_stack s1
                 = Block ty h c (last_block ty (block_stack s)) F
                     :: block_stack s)) /\
             ((exists popped,
                 function_stack s = popped ++ function_stack s1 /\
                 List.length (heap s1) = List.length (heap s)) \/
              (exists r m,
                 function_stack s1
                 = Frame r (List.length (heap s)) m :: function_stack s /\
                 heap s1 = heap s ++ [fresh_locals]))).
  { intros s1 Hb Hf Hh. split; left; exists []; simpl; auto. }
  assert (Hunwind : forall s0 s1 : state,
             unwind_block s0 = Ok s1 ->
             (exists pre, block_stack s = pre ++ block_stack s0) ->
             function_stack s0 = function_stack s ->
             heap s0 = heap s ->
             (exists pre, block_stack s = pre ++ block_stack s1) /\
             (exists popped,
                function_stack s = popped ++ function_stack s1 /\
                List.length (heap s1) = List.length (heap s))).
  { intros s0 s1 Hu [pre0 Hpre0] Hf Hh.
    destruct (unwind_block_shape _ _ Hu) as ([pre Hpre] & [popped Hpop] & Hh1).
    split.
    - exists (pre0 ++ pre). rewrite Hpre0, Hpre. now rewrite app_assoc.
    - exists popped. rewrite <- Hf, Hh1, Hh. auto. }
  intros H. unfold step in H.
  destruct (as_int (instruction_ptr s)) as [ip |]; [| discriminate].
  destruct (py_getitem code (instruction_ptr s)) as [opcode | e];
    [| discriminate].
  assert (Hd : forall op, dispatch code opcode op ip s = Running s' ->
           ((exists pre, block_stack s = pre ++ block_stack s') \/
            (exists ty h c F callers,
               function_stack s = F :: callers /\
               block_stack s'
               = Block ty h c (last_block ty (block_stack s)) F
                   :: block_stack s)) /\
           ((exists popped,
               function_stack s = popped ++ function_stack s' /\
               List.length (heap s') = List.length (heap s)) \/
            (exists r m,
               function_stack s'
               = Frame r (List.length (heap s)) m :: function_stack s /\
               heap s' = heap s ++ [fresh_locals]))).
  { clear H. intros op H. unfold dispatch in H.
    repeat match type of H with
      | (if ?c then _ else _) = _ => destruct c
      end;
      try discriminate;
      try (match type of H with
           | continue ?r = _ =>
               let E := fresh "E" in
               destruct r as [s1 | e] eqn:E; [| discriminate];
               injection H as <-
           end).
    - unfold op_load in E. ok_cases E. injection E as <-. apply Hsame; auto.
    - unfold op_getnumber in E. ok_cases E. injection E as <-.
      apply Hsame; auto.
    - unfold op_writelocal in E. ok_cases E. injection E as <-.
      apply Hsame; auto. proj. apply replace_nth_length.
    - unfold op_setupcatch in E. ok_cases E. injection E as <-.
      match goal with
      | Hp : push_block _ _ _ _ _ = Ok _ |- _ =>
          destruct (push_block_shape _ _ _ _ _ _ Hp)
            as (ho & co & F & callers & Efs & _ & ->)
      end.
      proj. split; [right; repeat eexists; eauto | left; exists []; auto].
    - unfold op_setupdefer in E. ok_cases E. injection E as <-.
      match goal with
      | Hp : push_block _ _ _ _ _ = Ok _ |- _ =>
          destruct (push_block_shape _ _ _ _ _ _ Hp)
            as (ho & co & F & callers & Efs & _ & ->)
      end.
      proj. split; [right; repeat eexists; eauto | left; exists []; auto].
    - unfold op_jmp in E. ok_cases E. injection E as <-. apply Hsame; auto.
    - unfold op_jmpif in E. ok_cases E; injection E as <-; apply Hsame; auto.
    - unfold op_loadlocal in E. ok_cases E. injection E as <-.
      apply Hsame; auto.
    - unfold op_print in E. ok_cases E. injection E as <-. apply Hsame; auto.
    - unfold op_call in E. ok_cases E. injection E as <-.
      split; [left; exists []; auto | right; do 2 eexists; split; reflexivity].
    - unfold op_add in E. ok_cases E. injection E as <-. apply Hsame; auto.
    - unfold op_cmp in E. ok_cases E. injection E as <-. apply Hsame; auto.
    - unfold op_unwind in E.
      destruct (block_stack s) as [| top below] eqn:Ebs; [discriminate |].
      ok_cases E; injection E as <-; proj; rewrite ?Ebs.
      + split; [left; exists [top]; auto | left; exists []; auto].
      + split; [left; exists []; auto | left; exists []; auto].
    - unfold op_defercontinue in E.
      destruct (List.length (block_stack s) <? 2)%nat; [discriminate |].
      destruct (block_stack s) as [| top below] eqn:Ebs; [discriminate |].
      destruct (unwind_reason s).
      + destruct (Hunwind _ _ E) as [Hb Hf]; proj; auto.
        exists [top]. reflexivity.
      + injection E as <-. proj.
        split; [left; exists [top]; auto | left; exists []; auto].
    - unfold op_ret in E.
      destruct (function_stack s) as [| active callers] eqn:Efs;
        [discriminate |].
      destruct (must_unwind _ _ _).
      + destruct (Hunwind _ _ E) as [Hb Hf]; proj; auto.
        exists []. reflexivity.
      + injection E as <-. proj.
        split; [left; exists []; auto | left; exists [active]; auto].
    - unfold op_throw in E.
      destruct (last_block "catch" (block_stack s)); [| discriminate].
      destruct (Hunwind _ _ E) as [Hb Hf]; proj; auto.
      exists []. reflexivity.
    - destruct (data_stack s); discriminate.
    - unfold op_dup in E. ok_cases E. injection E as <-. apply Hsame; auto. }
  destruct opcode as [z | l | b |]; simpl in H; try discriminate; eauto.
  - injection H as <-. apply Hsame; auto.
  - destruct b; eauto.
Qed.

(** ** Parent blocks *)

Lemma parents_recorded_drop (pre bs : list block) :
  parents_recorded (pre ++ bs) -> parents_recorded bs.
Proof.
  induction pre as [| b pre IH]; simpl; [auto | intros [_ H]; auto].
Qed.

(** X4.  In every state of a run, each block on the block stack still has
    beneath it the block it recorded as its parent: the parent is the nearest
    block of the same type further down, or [None] when there is none. *)
Theorem parent_is_nearest_block_below (code : list value) (user : list Z)
  (s : state) :
  reachable code user s -> parents_recorded (block_stack s).
Proof.
  induction 1 as [| s s' _ IH Hstep]; [exact I |].
  destruct (step_shape _ _ _ Hstep) as [[[pre Hpre] | Hpush] _].
  - rewrite Hpre in IH. eapply parents_recorded_drop; eassumption.
  - destruct Hpush as (ty & h & c & F & callers & _ & ->).
    simpl. auto.
Qed.

Lemma parent_is_nearest_block_below_witness :
  parents_recorded (block_stack sample_in_add).
Proof.
  apply (parent_is_nearest_block_below sample_code_memory [3; 4]).
  apply (reachable_after sample_code_memory [3; 4] 20).
  vm_compute. eexists. reflexivity.
Defined.

(** ** Locals *)

Lemma locals_private_reachable (code : list value) (user : list Z)
  (s : state) :
  reachable code user s -> locals_private s.
Proof.
  induction 1 as [| s s' _ [Hnd Hfr] Hstep].
  - split; simpl.
    + constructor; [intros [] | constructor].
    + constructor; [simpl; lia | constructor].
  - destruct (step_shape _ _ _ Hstep) as [_ [(popped & Hpop & Hlen) | Hpush]].
    + rewrite Hpop, map_app in Hnd. rewrite Hpop in Hfr.
      split; [eapply NoDup_drop; eassumption |].
      rewrite Hlen. eapply Forall_drop; eassumption.
    + destruct Hpush as (r & m & Hfs & Hh). split.
      * rewrite Hfs. simpl. constructor; [| assumption].
        intros Hin. apply in_map_iff in Hin. destruct Hin as (g & Hg & Hin).
        rewrite Forall_forall in Hfr. apply Hfr in Hin. lia.
      * rewrite Hfs, Hh, length_app. simpl.
        constructor; [simpl; lia |].
        eapply Forall_impl; [| exact Hfr]. simpl. intros g Hg. lia.
Qed.

Lemma step_at (code : list value) (s : state) (op ip : Z) :
  fetches code s op ->
  as_int (instruction_ptr s) = Some ip ->
  exists opcode, step code s = dispatch code opcode op ip s.
Proof.
  intros Hf Hip. destruct (step_fetches _ _ _ Hf) as (o & ip' & Hip' & _ & ->).
  rewrite Hip in Hip'. injection Hip' as <-. eauto.
Qed.

Lemma nth_replace_nth_eq {A : Type} (l : list A) :
  forall k a d, (k < List.length l)%nat -> nth k (replace_nth k a l) d = a.
Proof.
  induction l as [| h t IH]; intros [| k] a d Hk; simpl in *;
    try lia; auto. apply IH. lia.
Qed.

Lemma nth_error_replace_nth_eq {A : Type} (l : list A) :
  forall k a, (k < List.length l)%nat ->
              nth_error (replace_nth k a l) k = Some a.
Proof.
  induction l as [| h t IH]; intros [| k] a Hk; simpl in *;
    try lia; auto. apply IH. lia.
Qed.

Lemma nth_replace_nth_neq {A : Type} (l : list A) :
  forall j k a d, j <> k -> nth j (replace_nth k a l) d = nth j l d.
Proof.
  induction l as [| h t IH]; intros [| j] [| k] a d Hjk; simpl;
    try congruence; auto.
Qed.

Lemma py_pos_bound (n : nat) (i : Z) (k : nat) :
  py_pos n i = Some k -> (k < n)%nat.
Proof.
  unfold py_pos. destruct (0 <=? i) eqn:E0.
  - destruct (i <? Z.of_nat n) eqn:E1; [| discriminate].
    intros H. injection H as <-. apply Z.leb_le in E0. apply Z.ltb_lt in E1.
    lia.
  - destruct (- Z.of_nat n <=? i) eqn:E1; [| discriminate].
    intros H. injection H as <-. apply Z.leb_gt in E0. apply Z.leb_le in E1.
    lia.
Qed.

(** What a successful write does to the store. *)
Lemma op_writelocal_effect (code : list value) (ip : Z) (s s' : state) :
  op_writelocal code ip s = Ok s' ->
  exists o z k v rest F callers,
    operand code ip 1 = Ok o /\ as_int o = Some z /\
    data_stack s = v :: rest /\ function_stack s = F :: callers /\
    py_pos (List.length (deref (heap s) (locals F))) z = Some k /\
    (locals F < List.length (heap s))%nat /\
    s' = set_ip (incip 2 ip)
           (set_heap
              (replace_nth (locals F)
                 (replace_nth k v (deref (heap s) (locals F))) (heap s))
              (set_data rest s)).
Proof.
  unfold op_writelocal, bind. intros H.
  destruct (operand code ip 1) as [o |]; [| discriminate].
  destruct (data_stack s) as [| v rest]; [discriminate |].
  destruct (function_stack s) as [| F callers]; [discriminate |].
  unfold py_setitem in H.
  destruct (as_int o) as [z |] eqn:Ez; [| discriminate].
  destruct (py_pos _ z) as [k |] eqn:Ek; [| discriminate].
  injection H as <-.
  exists o, z, k, v, rest, F, callers. repeat split; auto.
  apply py_pos_bound in Ek. unfold deref in Ek.
  destruct (Nat.lt_ge_cases (locals F) (List.length (heap s))) as [Hlt | Hge];
    [assumption |].
  rewrite nth_overflow in Ek by assumption. simpl in Ek. lia.
Qed.

(** X7.  A value written to a local slot is the value read back from that
    slot: after a successful [OP_WRITELOCAL] with operand [o], an
    [OP_LOADLOCAL] with the same operand, executed in the same frame before
    the store changes again, pushes the value that was written. *)
Theorem writelocal_then_loadlocal (code : list value) (s s1 s2 : state)
  (ip1 ip2 : Z) (o v : value) (rest : list value) :
  fetches code s OP_WRITELOCAL ->
  as_int (instruction_ptr s) = Some ip1 ->
  operand code ip1 1 = Ok o ->
  data_stack s = v :: rest ->
  step code s = Running s1 ->
  fetches code s2 OP_LOADLOCAL ->
  as_int (instruction_ptr s2) = Some ip2 ->
  operand code ip2 1 = Ok o ->
  function_stack s2 = function_stack s1 ->
  heap s2 = heap s1 ->
  step code s2
  = Running (set_ip (VInt (ip2 + 2)) (set_data (v :: data_stack s2) s2)).
Proof.
  intros Hf1 Hip1 Ho1 Hd Hstep Hf2 Hip2 Ho2 Hfs Hh.
  destruct (step_at _ _ _ _ Hf1 Hip1) as [oc1 E1]. rewrite E1 in Hstep.
  change (dispatch code oc1 OP_WRITELOCAL ip1 s)
    with (continue (op_writelocal code ip1 s)) in Hstep.
  destruct (op_writelocal code ip1 s) as [s1' |] eqn:Ew; [| discriminate].
  injection Hstep as <-.
  destruct (op_writelocal_effect _ _ _ _ Ew)
    as (o' & z & k & v' & rest' & F & callers & Ho' & Hz & Hd' & Efs & Hk
        & Hlt & ->).
  rewrite Ho1 in Ho'. injection Ho' as <-.
  rewrite Hd in Hd'. injection Hd' as <- <-.
  proj.
  destruct (step_at _ _ _ _ Hf2 Hip2) as [oc2 E2]. rewrite E2.
  change (dispatch code oc2 OP_LOADLOCAL ip2 s2)
    with (continue (op_loadlocal code ip2 s2)).
  unfold op_loadlocal, bind. rewrite Ho2, Hfs, Efs, Hh.
  unfold deref at 1. rewrite nth_replace_nth_eq by assumption.
  unfold py_getitem. rewrite Hz, replace_nth_length, Hk.
  rewrite nth_error_replace_nth_eq by (eapply py_pos_bound; eassumption).
  reflexivity.
Qed.

Lemma writelocal_then_loadlocal_witness :
  step sample_code_memory
    (state_after sample_code_memory 33 (initial_state [3; 4]))
  = Running
      (set_ip (VInt (75 + 2))
         (set_data
            (VInt 7
               :: data_stack
                    (state_after sample_code_memory 33
                       (initial_state [3; 4])))
            (state_after sample_code_memory 33 (initial_state [3; 4])))).
Proof.
  apply (writelocal_then_loadlocal sample_code_memory
           (state_after sample_code_memory 32 (initial_state [3; 4]))
           (state_after sample_code_memory 33 (initial_state [3; 4]))
           (state_after sample_code_memory 33 (initial_state [3; 4]))
           73 75 (VInt 0) (VInt 7) []).
  - exists (VInt OP_WRITELOCAL). split; vm_compute; reflexivity.
  - vm_compute. reflexivity.
  - vm_compute. reflexivity.
  - vm_compute. reflexivity.
  - vm_compute. reflexivity.
  - exists (VInt OP_LOADLOCAL). split; vm_compute; reflexivity.
  - vm_compute. reflexivity.
  - vm_compute. reflexivity.
  - reflexivity.
  - reflexivity.
Defined.

(** X8.  [OP_WRITELOCAL] writes into the locals of the top frame only: in a
    run, the locals of every other frame on the call stack are what they
    were, and the call stack itself is unchanged. *)
Theorem writelocal_leaves_callers_locals (code : list value) (user : list Z)
  (s s' : state) (F : frame) (callers : list frame) (g : frame) :
  reachable code user s ->
  fetches code s OP_WRITELOCAL ->
  step code s = Running s' ->
  function_stack s = F :: callers ->
  In g callers ->
  function_stack s' = F :: callers /\
  deref (heap s') (locals g) = deref (heap s) (locals g).
Proof.
  intros Hr Hf Hstep Efs Hg.
  destruct (locals_private_reachable _ _ _ Hr) as [Hnd _].
  destruct (step_fetches _ _ _ Hf) as (oc & ip & _ & _ & E).
  rewrite E in Hstep.
  change (dispatch code oc OP_WRITELOCAL ip s)
    with (continue (op_writelocal code ip s)) in Hstep.
  destruct (op_writelocal code ip s) as [s1 |] eqn:Ew; [| discriminate].
  injection Hstep as <-.
  destruct (op_writelocal_effect _ _ _ _ Ew)
    as (o & z & k & v & rest & F' & callers' & _ & _ & _ & Efs' & _ & _ & ->).
  rewrite Efs in Efs'. injection Efs' as <- <-.
  proj. split; [assumption |].
  unfold deref. apply nth_replace_nth_neq.
  rewrite Efs in Hnd. simpl in Hnd. inversion Hnd as [| ? ? Hnin _]; subst.
  intros Heq. apply Hnin. rewrite <- Heq. apply in_map. assumption.
Qed.

Lemma writelocal_leaves_callers_locals_witness :
  function_stack (state_after sample_code_memory 33 (initial_state [3; 4]))
  = [Frame (VInt 23) 1
       (Some (Block "defer" 26 (VInt 31) None (Frame (VStr "err") 0 None)));
     Frame (VStr "err") 0 None] /\
  deref (heap (state_after sample_code_memory 33 (initial_state [3; 4])))
    (locals (Frame (VStr "err") 0 None))
  = deref (heap (state_after sample_code_memory 32 (initial_state [3; 4])))
      (locals (Frame (VStr "err") 0 None)).
Proof.
  apply (writelocal_leaves_callers_locals sample_code_memory [3; 4]
           (state_after sample_code_memory 32 (initial_state [3; 4]))
           (state_after sample_code_memory 33 (initial_state [3; 4]))).
  - apply (reachable_after sample_code_memory [3; 4] 32).
    vm_compute. eexists. reflexivity.
  - exists (VInt OP_WRITELOCAL). split; vm_compute; reflexivity.
  - vm_compute. reflexivity.
  - vm_compute. reflexivity.
  - left. reflexivity.
Defined.

(** ** Calls *)

(** X9.  [OP_CALL] gives the callee a locals list of its own, holding 9999
    in each of its four slots, and in a run it leaves the locals of every
    frame already on the call stack untouched. *)
Theorem call_allocates_fresh_locals (code : list value) (user : list Z)
  (s s' : state) :
  reachable code user s ->
  fetches code s OP_CALL ->
  step code s = Running s' ->
  exists callee,
    function_stack s' = callee :: function_stack s /\
    deref (heap s') (locals callee) = fresh_locals /\
    Forall (fun g => deref (heap s') (locals g) = deref (heap s) (locals g))
           (function_stack s).
Proof.
  intros Hr Hf Hstep.
  destruct (locals_private_reachable _ _ _ Hr) as [_ Hfr].
  destruct (step_call _ _ Hf) as (ip & _ & E). rewrite E in Hstep.
  destruct (op_call code ip s) as [s1 |] eqn:Ec; [| discriminate].
  injection Hstep as <-. unfold op_call in Ec. ok_cases Ec.
  injection Ec as <-. proj.
  eexists. split; [reflexivity |]. split.
  - unfold deref, locals. rewrite app_nth2 by lia.
    now rewrite Nat.sub_diag.
  - eapply Forall_impl; [| exact Hfr]. simpl. intros g Hg.
    unfold deref. now rewrite app_nth1.
Qed.

Lemma call_allocates_fresh_locals_witness :
  exists callee,
    function_stack (state_after sample_code_memory 13 (initial_state [3; 4]))
    = callee
        :: function_stack
             (state_after sample_code_memory 12 (initial_state [3; 4])) /\
    deref (heap (state_after sample_code_memory 13 (initial_state [3; 4])))
      (locals callee) = fresh_locals /\
    Forall (fun g =>
              deref
                (heap (state_after sample_code_memory 13
                         (initial_state [3; 4])))
                (locals g)
              = deref
                  (heap (state_after sample_code_memory 12
                           (initial_state [3; 4])))
                  (locals g))
           (function_stack
              (state_after sample_code_memory 12 (initial_state [3; 4]))).
Proof.
  apply (call_allocates_fresh_locals sample_code_memory [3; 4]
           (state_after sample_code_memory 12 (initial_state [3; 4]))
           (state_after sample_code_memory 13 (initial_state [3; 4]))).
  - apply (reachable_after sample_code_memory [3; 4] 12).
    vm_compute. eexists. reflexivity.
  - exists (VInt OP_CALL). split; vm_compute; reflexivity.
  - vm_compute. reflexivity.
Defined.

(** X6.  A call and the return that answers it: [OP_CALL] pushes a frame
    whose return address is the offset after the call's operand and jumps to
    the callee's label; an [OP_RET] executed in that frame while the block
    stack is as the call found it pops the frame without unwinding and
    resumes at that return address, the caller's frame being on top again. *)
Theorem call_then_ret_resumes_after_call (code : list value) (s s2 : state)
  (ip off : Z) (label : value) :
  fetches code s OP_CALL ->
  as_int (instruction_ptr s) = Some ip ->
  operand code ip 1 = Ok label ->
  resolve_label code label = Ok off ->
  fetches code s2 OP_RET ->
  function_stack s2
  = Frame (VInt (ip + 2)) (List.length (heap s)) (hd_error (block_stack s))
      :: function_stack s ->
  block_stack s2 = block_stack s ->
  step code s
  = Running
      (set_ip (VInt off)
         (set_frames
            (Frame (VInt (ip + 2)) (List.length (heap s))
               (hd_error (block_stack s)) :: function_stack s)
            (set_heap (heap s ++ [fresh_locals]) s))) /\
  step code s2
  = Running (set_ip (VInt (ip + 2)) (set_frames (function_stack s) s2)).
Proof.
  intros Hf Hip Hl Hoff Hf2 Efs2 Ebs2. split.
  - destruct (step_at _ _ _ _ Hf Hip) as [oc E]. rewrite E.
    change (dispatch code oc OP_CALL ip s)
      with (continue (op_call code ip s)).
    unfold op_call, bind. rewrite Hl, Hoff. reflexivity.
  - rewrite (step_ret _ _ Hf2). unfold op_ret. rewrite Efs2, Ebs2.
    replace (must_unwind (heap s2)
               (Frame (VInt (ip + 2)) (List.length (heap s))
                  (hd_error (block_stack s)))
               (block_stack s)) with false; [reflexivity |].
    unfold must_unwind. destruct (block_stack s) as [| top below];
      [reflexivity |].
    simpl. now rewrite block_eqb_refl.
Qed.

Lemma call_then_ret_resumes_after_call_witness :
  step plain_call_code (state_after plain_call_code 3 (initial_state []))
  = Running
      (set_ip (VInt 9)
         (set_frames
            (Frame (VInt (4 + 2))
               (List.length
                  (heap (state_after plain_call_code 3 (initial_state []))))
               (hd_error
                  (block_stack
                     (state_after plain_call_code 3 (initial_state []))))
               :: function_stack
                    (state_after plain_call_code 3 (initial_state [])))
            (set_heap
               (heap (state_after plain_call_code 3 (initial_state []))
                  ++ [fresh_locals])
               (state_after plain_call_code 3 (initial_state []))))) /\
  step plain_call_code (state_after plain_call_code 6 (initial_state []))
  = Running
      (set_ip (VInt (4 + 2))
         (set_frames
            (function_stack
               (state_after plain_call_code 3 (initial_state [])))
            (state_after plain_call_code 6 (initial_state [])))).
Proof.
  apply (call_then_ret_resumes_after_call plain_call_code
           (state_after plain_call_code 3 (initial_state []))
           (state_after plain_call_code 6 (initial_state []))
           4 9 (VStr "f")).
  - exists (VInt OP_CALL). split; vm_compute; reflexivity.
  - vm_compute. reflexivity.
  - vm_compute. reflexivity.
  - vm_compute. reflexivity.
  - exists (VInt OP_RET). split; vm_compute; reflexivity.
  - vm_compute. reflexivity.
  - vm_compute. reflexivity.
Defined.

(** ** Jumps *)

(** X12.  A jump lands on the definition of its label, which the next
    iteration skips: two iterations after [OP_JMP] the instruction pointer is
    one past the label's offset and nothing else has changed. *)
Theorem jmp_lands_after_label (code : list value) (s : state) (ip off : Z)
  (label : value) :
  fetches code s OP_JMP ->
  as_int (instruction_ptr s) = Some ip ->
  operand code ip 1 = Ok label ->
  resolve_label code label = Ok off ->
  step code s = Running (set_ip (VInt off) s) /\
  run code 2 s = Running (set_ip (VInt (off + 1)) s).
Proof.
  intros Hf Hip Hl Hoff.
  assert (Hstep : step code s = Running (set_ip (VInt off) s)).
  { destruct (step_at _ _ _ _ Hf Hip) as [oc E]. rewrite E.
    change (dispatch code oc OP_JMP ip s) with (continue (op_jmp code ip s)).
    unfold op_jmp, bind. rewrite Hl, Hoff. reflexivity. }
  split; [assumption |].
  cbn [run]. rewrite Hstep.
  destruct (resolve_label_first_definition _ _ _ Hoff) as (_ & Hget & _).
  unfold step. cbn [instruction_ptr set_ip as_int]. rewrite Hget.
  reflexivity.
Qed.

Lemma jmp_lands_after_label_witness :
  step [VInt OP_JMP; VStr "end"; VInt OP_ABORT; VStr ".end"; VInt OP_EXIT]
       (initial_state [])
  = Running (set_ip (VInt 3) (initial_state [])) /\
  run [VInt OP_JMP; VStr "end"; VInt OP_ABORT; VStr ".end"; VInt OP_EXIT] 2
      (initial_state [])
  = Running (set_ip (VInt (3 + 1)) (initial_state [])).
Proof.
  apply (jmp_lands_after_label
           [VInt OP_JMP; VStr "end"; VInt OP_ABORT; VStr ".end"; VInt OP_EXIT]
           (initial_state []) 0 3 (VStr "end")).
  - exists (VInt OP_JMP). split; vm_compute; reflexivity.
  - reflexivity.
  - vm_compute. reflexivity.
  - vm_compute. reflexivity.
Defined.

(** X10.  A comparison followed by a conditional jump: [OP_CMP] and the
    [OP_JMPIF] after it consume the two topmost values and go to the label
    when the values are equal under Python's [==], and to the operation after
    the jump otherwise. *)
Theorem cmp_then_jmpif_branches_on_equality (code : list value) (s : state)
  (ip off : Z) (label lhs rhs : value) (rest : list value) :
  fetches code s OP_CMP ->
  as_int (instruction_ptr s) = Some ip ->
  py_getitem code (VInt (ip + 1)) = Ok (VInt OP_JMPIF) ->
  operand code (ip + 1) 1 = Ok label ->
  resolve_label code label = Ok off ->
  data_stack s = rhs :: lhs :: rest ->
  run code 2 s
  = Running (set_ip (VInt (if py_eq lhs rhs then off else ip + 3))
               (set_data rest s)).
Proof.
  intros Hf Hip Hj Hl Hoff Hd.
  destruct (step_at _ _ _ _ Hf Hip) as [oc E].
  cbn [run]. rewrite E.
  change (dispatch code oc OP_CMP ip s) with (continue (op_cmp ip s)).
  unfold op_cmp. rewrite Hd. cbn [continue].
  unfold step, incip. cbn [instruction_ptr set_ip as_int]. rewrite Hj.
  cbn [as_int].
  change (dispatch code (VInt OP_JMPIF) OP_JMPIF (ip + 1)
            (set_ip (VInt (ip + 1))
               (set_data (VBool (py_eq lhs rhs) :: rest) s)))
    with (continue
            (op_jmpif code (ip + 1)
               (set_ip (VInt (ip + 1))
                  (set_data (VBool (py_eq lhs rhs) :: rest) s)))).
  unfold op_jmpif. cbn [data_stack set_ip set_data truthy].
  destruct (py_eq lhs rhs).
  - unfold bind. rewrite Hl, Hoff. reflexivity.
  - unfold incip. replace (ip + 1 + 2) with (ip + 3) by lia. reflexivity.
Qed.

Lemma cmp_then_jmpif_branches_on_equality_witness :
  run sample_code_memory 2
    (state_after sample_code_memory 35 (initial_state [3; 4]))
  = Running
      (set_ip (VInt (if py_eq (VInt 7) (VInt 14) then 92 else 79 + 3))
         (set_data []
            (state_after sample_code_memory 35 (initial_state [3; 4])))).
Proof.
  apply (cmp_then_jmpif_branches_on_equality sample_code_memory
           (state_after sample_code_memory 35 (initial_state [3; 4]))
           79 92 (VStr "prevent_14#L3") (VInt 7) (VInt 14) []).
  - exists (VInt OP_CMP). split; vm_compute; reflexivity.
  - vm_compute. reflexivity.
  - vm_compute. reflexivity.
  - vm_compute. reflexivity.
  - vm_compute. reflexivity.
  - vm_compute. reflexivity.
Defined.

(** ** The unwinding routine in a run *)

Lemma unwind_block_succeeds (s : state) :
  well_formed s -> block_stack s <> [] -> unwind_reason s <> None ->
  exists s', unwind_block s = Ok s'.
Proof.
  intros Hwf Hne Hr.
  destruct (unwind_reason s) as [[|] |] eqn:Er; [| | congruence].
  - apply unwind_exception_succeeds; assumption.
  - destruct Hwf as [Hal _ _ _]. unfold unwind_block. rewrite Er.
    destruct (block_stack s) as [| top below] eqn:Ebs; [congruence |].
    assert (Hin : In (active_frame top) (function_stack s))
      by (eapply aligned_owner_in; [eassumption | now left]).
    destruct (function_stack s) as [| F callers]; [destruct Hin |].
    destruct (last_block "defer" (top :: below)) as [d |];
      [destruct (frame_eqb (heap s) (active_frame d) F) |]; eauto.
Qed.

(** X5.  In a run whose frames and blocks nest no deeper than the
    comparisons of the interpreter can descend, the unwinding routine does
    not raise.  [OP_RET] completes whenever the call stack holds a frame and
    [OP_DEFERCONTINUE] whenever the block stack holds two blocks: within
    that nesting the only ways these operations fail are their own
    guards. *)
Theorem ret_and_continue_complete_in_runs (code : list value)
  (user : list Z) (s : state) (op : Z) :
  reachable code user s ->
  nesting_within comparison_depth s = true ->
  fetches code s op ->
  (op = OP_RET /\ function_stack s <> []) \/
  (op = OP_DEFERCONTINUE /\ (2 <= List.length (block_stack s))%nat) ->
  exists s', step code s = Running s'.
Proof.
  intros Hr _ Hf Hop. apply reachable_wf in Hr.
  destruct Hop as [[-> Hfs] | [-> Hlen]].
  - rewrite (step_ret _ _ Hf). unfold op_ret.
    destruct (function_stack s) as [| active callers] eqn:Efs; [congruence |].
    destruct (must_unwind (heap s) active (block_stack s)) eqn:Em;
      [| simpl; eauto].
    destruct (unwind_block_succeeds (set_reason (Some UNWIND_RETURN) s))
      as [s' Hs'].
    + apply well_formed_set_reason. assumption.
    + proj. intros E. rewrite E in Em. discriminate.
    + discriminate.
    + rewrite Hs'. simpl. eauto.
  - rewrite (step_defercontinue _ _ Hf). unfold op_defercontinue.
    destruct (List.length (block_stack s) <? 2)%nat eqn:El;
      [apply Nat.ltb_lt in El; lia |].
    destruct (block_stack s) as [| top [| next below]] eqn:Ebs;
      simpl in Hlen; try lia.
    destruct (unwind_reason s) as [r |] eqn:Er; [| simpl; eauto].
    destruct (unwind_block_succeeds (set_blocks (next :: below) s))
      as [s' Hs'].
    + eapply well_formed_pop_block; eassumption.
    + discriminate.
    + proj. congruence.
    + rewrite Hs'. simpl. eauto.
Qed.

Lemma ret_and_continue_complete_in_runs_witness :
  exists s',
    step sample_code_memory
      (state_after sample_code_memory 42 (initial_state [3; 4]))
    = Running s'.
Proof.
  apply (ret_and_continue_complete_in_runs sample_code_memory [3; 4]
           (state_after sample_code_memory 42 (initial_state [3; 4]))
           OP_DEFERCONTINUE).
  - apply (reachable_after sample_code_memory [3; 4] 42).
    vm_compute. eexists. reflexivity.
  - vm_compute. reflexivity.
  - exists (VInt OP_DEFERCONTINUE). split; vm_compute; reflexivity.
  - right. split; [reflexivity | vm_compute; lia].
Defined.

(** X13.  An exception thrown in a frame whose defer region lies directly
    above a catch region: the throw enters the defer handler with the
    exception pending and both blocks in place.  If the handler body reaches
    its [OP_DEFERCONTINUE] with the call stack, the block stack and the
    pending reason as the throw left them ([body_ran]), that operation pops
    the defer, discards the frames above the owner of the catch, pops the
    catch, clears the reason and enters the catch handler.  A body of plain
    operations meets the proviso; a body that calls a function with blocks
    of its own does not, because the return of that function clears the
    reason. *)
Theorem exception_runs_defer_then_catch (code : list value) (s s2 : state)
  (F : frame) (callers : list frame) (d c : block) (rest : list block) :
  well_formed s ->
  fetches code s OP_THROW ->
  function_stack s = F :: callers ->
  block_stack s = d :: c :: rest ->
  block_type d = "defer" ->
  block_type c = "catch" ->
  active_frame d = F ->
  body_ran (set_ip (VInt (handler_offset d))
              (set_reason (Some UNWIND_EXCEPTION) s)) s2 ->
  fetches code s2 OP_DEFERCONTINUE ->
  step code s
  = Running (set_ip (VInt (handler_offset d))
               (set_reason (Some UNWIND_EXCEPTION) s)) /\
  exists popped kept,
    F :: callers = popped ++ active_frame c :: kept /\
    ~ In (active_frame c) popped /\
    step code s2
    = Running (set_ip (VInt (handler_offset c))
                 (set_reason None
                    (set_blocks rest
                       (set_frames (active_frame c :: kept) s2)))).
Proof.
  intros [Hal _ _ _] Hf Efs Ebs Hd Hc Hown (Hfs2 & Hbs2 & Hr2) Hf2.
  proj. split.
  - rewrite (step_throw _ _ Hf). unfold op_throw, last_block.
    rewrite Ebs. simpl. rewrite Hd, Hc. simpl.
    unfold unwind_block. proj. rewrite Ebs, Efs. simpl.
    rewrite Hown, frame_eqb_refl, Hd.
    change ("defer" =? "catch")%string with false.
    change ("defer" =? "defer")%string with true. cbv iota.
    rewrite <- Efs. destruct s; reflexivity.
  - rewrite Efs, Ebs in Hal. apply aligned_pop_block in Hal.
    destruct (unwind_frames_owner (heap s2) _ _ _ Hal)
      as (popped & kept & Hsplit & Hnin & Huf).
    exists popped, kept. split; [assumption |]. split; [assumption |].
    rewrite (step_defercontinue _ _ Hf2). unfold op_defercontinue.
    rewrite Hbs2, Ebs, Hr2. cbn [List.length Nat.ltb Nat.leb].
    unfold unwind_block. proj. rewrite Hr2, Hfs2, Efs, Huf, Hc.
    reflexivity.
Qed.

Lemma exception_runs_defer_then_catch_witness :
  step defer_then_catch_code
    (state_after defer_then_catch_code 6 (initial_state []))
  = Running
      (set_ip (VInt (handler_offset
                       (nth 0 (block_stack
                                 (state_after defer_then_catch_code 6
                                    (initial_state []))) default_block)))
         (set_reason (Some UNWIND_EXCEPTION)
            (state_after defer_then_catch_code 6 (initial_state [])))) /\
  exists popped kept,
    hd default_frame
      (function_stack (state_after defer_then_catch_code 6 (initial_state [])))
      :: [Frame (VStr "err") 0 None]
    = popped
        ++ active_frame
             (nth 1 (block_stack
                       (state_after defer_then_catch_code 6
                          (initial_state []))) default_block)
        :: kept /\
    ~ In (active_frame
            (nth 1 (block_stack
                      (state_after defer_then_catch_code 6
                         (initial_state []))) default_block)) popped /\
    step defer_then_catch_code
      (state_after defer_then_catch_code 8 (initial_state []))
    = Running
        (set_ip (VInt (handler_offset
                         (nth 1 (block_stack
                                   (state_after defer_then_catch_code 6
                                      (initial_state []))) default_block)))
           (set_reason None
              (set_blocks []
                 (set_frames
                    (active_frame
                       (nth 1 (block_stack
                                 (state_after defer_then_catch_code 6
                                    (initial_state []))) default_block)
                       :: kept)
                    (state_after defer_then_catch_code 8
                       (initial_state [])))))).
Proof.
  apply (exception_runs_defer_then_catch defer_then_catch_code
           (state_after defer_then_catch_code 6 (initial_state []))
           (state_after defer_then_catch_code 8 (initial_state []))
           (hd default_frame
              (function_stack
                 (state_after defer_then_catch_code 6 (initial_state []))))
           [Frame (VStr "err") 0 None]
           (nth 0 (block_stack
                     (state_after defer_then_catch_code 6 (initial_state [])))
              default_block)
           (nth 1 (block_stack
                     (state_after defer_then_catch_code 6 (initial_state [])))
              default_block)
           []).
  - apply (reachable_wf defer_then_catch_code []).
    apply (reachable_after defer_then_catch_code [] 6).
    vm_compute. eexists. reflexivity.
  - exists (VInt OP_THROW). split; vm_compute; reflexivity.
  - vm_compute. reflexivity.
  - vm_compute. reflexivity.
  - vm_compute. reflexivity.
  - vm_compute. reflexivity.
  - vm_compute. reflexivity.
  - repeat split; vm_compute; reflexivity.
  - exists (VInt OP_DEFERCONTINUE). split; vm_compute; reflexivity.
Defined.



(** ** Faults of the fetch loop *)

(** X14.  An integer that is no opcode ends the run.  The name for the
    message is looked up in [opcode_names] with Python's indexing: 0 and the
    negative numbers down to -20 raise "unexpected opcode: " followed by the
    name at that index (so -1 is reported as [dup]); everything from 20 up
    and below -20 raises [IndexError] from the lookup itself. *)
Theorem unknown_opcode_fault (code : list value) (s : state) (op : Z) :
  py_getitem code (instruction_ptr s) = Ok (VInt op) ->
  op <= 0 \/ 20 <= op ->
  step code s
  = Crashed
      match py_pos 20 op with
      | Some k =>
          Exception (String.append "unexpected opcode: "
                       (nth k opcode_names ""))
      | None => IndexError
      end.
Proof.
  intros Hget Hop. unfold step.
  destruct (as_int (instruction_ptr s)) as [ip |] eqn:Hip.
  2:{ unfold py_getitem in Hget. rewrite Hip in Hget. discriminate. }
  rewrite Hget. cbn [as_int]. unfold dispatch.
  repeat match goal with
    | |- context [op =? ?k] =>
        replace (op =? k) with false
          by (symmetry; apply Z.eqb_neq;
              unfold OP_LOAD, OP_ADD, OP_PRINT, OP_JMP, OP_JMPIF, OP_CMP,
                OP_SETUPCATCH, OP_SETUPDEFER, OP_UNWIND, OP_DEFERCONTINUE,
                OP_THROW, OP_CALL, OP_RET, OP_WRITELOCAL, OP_LOADLOCAL,
                OP_GETNUMBER, OP_EXIT, OP_ABORT, OP_DUP; lia)
    end.
  unfold op_unexpected, py_getitem. cbn [as_int].
  change (List.length opcode_names) with 20%nat.
  destruct (py_pos 20 op) as [k |] eqn:Ek; [| reflexivity].
  apply py_pos_bound in Ek.
  rewrite (nth_error_nth' opcode_names "") by exact Ek. reflexivity.
Qed.

Lemma unknown_opcode_fault_witness :
  step [VInt (-1)] (initial_state [])
  = Crashed (Exception "unexpected opcode: dup").
Proof.
  apply (unknown_opcode_fault [VInt (-1)] (initial_state []) (-1)).
  - reflexivity.
  - left. lia.
Defined.

(** X15.  Operand stack underflow.  [OP_PRINT], [OP_JMPIF] and [OP_EXIT] on
    an empty operand stack, and [OP_ADD] and [OP_CMP] on fewer than two
    values, raise [IndexError] from the failing [pop]; [OP_DUP] on an empty
    stack raises its own "empty stack". *)
Theorem operand_underflow_fault (code : list value) (s : state) (op : Z) :
  fetches code s op ->
  (List.length (data_stack s) < pops op)%nat ->
  step code s
  = Crashed (if op =? OP_DUP then Exception "empty stack" else IndexError).
Proof.
  intros Hf Hlen.
  destruct (step_fetches _ _ _ Hf) as (oc & ip & _ & _ & ->).
  unfold pops in Hlen.
  destruct (op =? OP_ADD) eqn:E1;
    [apply Z.eqb_eq in E1; subst op;
     destruct (data_stack s) as [| x [| y r]] eqn:Ed; simpl in Hlen; try lia;
     unfold dispatch; simpl; unfold op_add; rewrite Ed; reflexivity |].
  destruct (op =? OP_CMP) eqn:E2;
    [apply Z.eqb_eq in E2; subst op;
     destruct (data_stack s) as [| x [| y r]] eqn:Ed; simpl in Hlen; try lia;
     unfold dispatch; simpl; unfold op_cmp; rewrite Ed; reflexivity |].
  destruct (op =? OP_PRINT) eqn:E3;
    [apply Z.eqb_eq in E3; subst op;
     destruct (data_stack s) as [| x r] eqn:Ed; simpl in Hlen; try lia;
     unfold dispatch; simpl; unfold op_print; rewrite Ed; reflexivity |].
  destruct (op =? OP_JMPIF) eqn:E4;
    [apply Z.eqb_eq in E4; subst op;
     destruct (data_stack s) as [| x r] eqn:Ed; simpl in Hlen; try lia;
     unfold dispatch; simpl; unfold op_jmpif; rewrite Ed; reflexivity |].
  destruct (op =? OP_EXIT) eqn:E5;
    [apply Z.eqb_eq in E5; subst op;
     destruct (data_stack s) as [| x r] eqn:Ed; simpl in Hlen; try lia;
     unfold dispatch; simpl; rewrite Ed; reflexivity |].
  destruct (op =? OP_DUP) eqn:E6;
    [apply Z.eqb_eq in E6; subst op;
     destruct (data_stack s) as [| x r] eqn:Ed; simpl in Hlen; try lia;
     unfold dispatch; simpl; unfold op_dup; rewrite Ed; reflexivity |].
  simpl in Hlen. lia.
Qed.

Lemma operand_underflow_fault_witness :
  step [VInt OP_LOAD; VInt 5; VInt OP_ADD]
       (state_after [VInt OP_LOAD; VInt 5; VInt OP_ADD] 1 (initial_state []))
  = Crashed IndexError.
Proof.
  apply (operand_underflow_fault [VInt OP_LOAD; VInt 5; VInt OP_ADD]
           (state_after [VInt OP_LOAD; VInt 5; VInt OP_ADD] 1
              (initial_state []))
           OP_ADD).
  - exists (VInt OP_ADD). split; vm_compute; reflexivity.
  - vm_compute. lia.
Defined.

(** ** Entering a handler of the frame on top *)

Lemma set_frames_same (s : state) : set_frames (function_stack s) s = s.
Proof. destruct s; reflexivity. Qed.

(** A throw whose topmost block belongs to the frame on top. *)
Lemma step_throw_own_block (code : list value) (s : state) (top : block)
  (below : list block) (F : frame) (callers : list frame) :
  fetches code s OP_THROW ->
  has_block "catch" (block_stack s) = true ->
  block_stack s = top :: below ->
  function_stack s = F :: callers ->
  active_frame top = F ->
  step code s
  = if String.eqb (block_type top) "catch" then Running (enter_catch s)
    else if String.eqb (block_type top) "defer"
         then Running (enter_defer UNWIND_EXCEPTION s)
         else Crashed (Exception "unexpected block type").
Proof.
  intros Hf Hc Ebs Efs Hown. rewrite (step_throw _ _ Hf). unfold op_throw.
  destruct (has_block_last_block _ _ Hc) as [c ->].
  unfold unwind_block, enter_catch, enter_defer. proj.
  rewrite Ebs, Efs. cbn [unwind_frames]. rewrite Hown, frame_eqb_refl.
  rewrite <- Efs.
  destruct (String.eqb (block_type top) "catch");
    [| destruct (String.eqb (block_type top) "defer")];
    destruct s; reflexivity.
Qed.

(** A return whose topmost block is a defer of the returning frame. *)
Lemma step_ret_own_defer (code : list value) (s : state) (d : block)
  (below : list block) (F : frame) (callers : list frame) :
  fetches code s OP_RET ->
  block_stack s = d :: below ->
  function_stack s = F :: callers ->
  block_type d = "defer" ->
  active_frame d = F ->
  step code s = Running (enter_defer UNWIND_RETURN s).
Proof.
  intros Hf Ebs Efs Hd Hown. rewrite (step_ret _ _ Hf). unfold op_ret.
  rewrite Efs, Ebs. cbn [must_unwind].
  rewrite (marker_differs_from_own_block _ _ _ Hown). cbn [negb].
  rewrite (unwind_return_own_defer _ F callers d); proj; auto.
  - rewrite Ebs. cbn [pop_until]. rewrite block_eqb_refl.
    unfold enter_defer. rewrite Ebs. destruct s; simpl in *; subst.
    reflexivity.
  - rewrite Ebs. unfold last_block. simpl. now rewrite Hd.
  - rewrite Hown. apply frame_eqb_refl.
Qed.

(** A continue with an exception pending: the defer is popped, the frames
    that differ from the owner of the next block are discarded, and the
    handler of that block is entered. *)
Lemma step_continue_exception (code : list value) (s : state)
  (top next : block) (below : list block) (popped kept : list frame) :
  fetches code s OP_DEFERCONTINUE ->
  unwind_reason s = Some UNWIND_EXCEPTION ->
  block_stack s = top :: next :: below ->
  function_stack s = popped ++ active_frame next :: kept ->
  Forall (fun f => frame_eqb (heap s) (active_frame next) f = false) popped ->
  step code s
  = if String.eqb (block_type next) "catch" then
      Running (enter_catch
                 (set_blocks (next :: below)
                    (set_frames (active_frame next :: kept) s)))
    else if String.eqb (block_type next) "defer" then
      Running (enter_defer UNWIND_EXCEPTION
                 (set_blocks (next :: below)
                    (set_frames (active_frame next :: kept) s)))
    else Crashed (Exception "unexpected block type").
Proof.
  intros Hf Hr Ebs Efs Hpop. rewrite (step_defercontinue _ _ Hf).
  unfold op_defercontinue. rewrite Ebs, Hr. cbn [List.length Nat.ltb Nat.leb].
  unfold unwind_block, enter_catch, enter_defer. proj. rewrite Hr, Efs.
  rewrite (unwind_frames_complete _ _ _ _ _ Hpop (frame_eqb_refl _ _)).
  destruct (popped ++ active_frame next :: kept) eqn:E;
    [destruct popped; discriminate |].
  destruct (String.eqb (block_type next) "catch");
    [| destruct (String.eqb (block_type next) "defer")];
    destruct s; simpl in *; subst; reflexivity.
Qed.

(** ** The program that ships with the prototype *)

Lemma run_app (code : list value) (n m : nat) :
  forall s,
    run code (n + m) s
    = match run code n s with
      | Running s' => run code m s'
      | o => o
      end.
Proof.
  induction n as [| n IH]; intros s; simpl; [reflexivity |].
  destruct (step code s); auto.
Qed.

Lemma run_one (code : list value) (s s' : state) (m : nat) :
  step code s = Running s' -> run code (1 + m) s = run code m s'.
Proof. intros H. simpl. now rewrite H. Qed.

Lemma run_some (code : list value) (n m : nat) (s : state) :
  (exists s', run code n s = Running s') ->
  run code (n + m) s = run code m (state_after code n s).
Proof.
  intros H. rewrite run_app, (run_state_after _ _ _ H). reflexivity.
Qed.

Lemma run_exits (code : list value) (n : nat) (s : state) :
  (exists s', run code n s = Exited s') ->
  run code n s = Exited (state_after code n s).
Proof. intros [s' H]. unfold state_after. now rewrite H. Qed.

Lemma sample_reaches_add (a b : Z) (rest : list Z) :
  run sample_code_memory 21 (initial_state (a :: b :: rest))
  = Running (sample_after_add a b (a + b) rest).
Proof. vm_compute. reflexivity. Qed.

Lemma sample_throw_in_add (a b c : Z) (rest : list Z) :
  step sample_code_memory (sample_after_add a b c rest)
  = Running (sample_in_add_catch a b c rest).
Proof.
  rewrite (step_throw_own_block sample_code_memory
             (sample_after_add a b c rest)
             (hd default_block (block_stack (sample_after_add a b c rest)))
             (tl (block_stack (sample_after_add a b c rest)))
             (hd default_frame (function_stack (sample_after_add a b c rest)))
             (tl (function_stack (sample_after_add a b c rest)))).
  - vm_compute. reflexivity.
  - exists (VInt OP_THROW). split; vm_compute; reflexivity.
  - vm_compute. reflexivity.
  - vm_compute. reflexivity.
  - vm_compute. reflexivity.
  - vm_compute. reflexivity.
Qed.

Lemma sample_ret_in_add (a b c : Z) (rest : list Z) :
  step sample_code_memory
    (state_after sample_code_memory 5 (sample_in_add_catch a b c rest))
  = Running (sample_in_add_defer a b c rest).
Proof.
  set (s := state_after sample_code_memory 5 (sample_in_add_catch a b c rest)).
  apply (step_ret_own_defer sample_code_memory s
           (hd default_block (block_stack s)) (tl (block_stack s))
           (hd default_frame (function_stack s)) (tl (function_stack s))).
  - exists (VInt OP_RET). split; vm_compute; reflexivity.
  - vm_compute. reflexivity.
  - vm_compute. reflexivity.
  - vm_compute. reflexivity.
  - vm_compute. reflexivity.
Qed.

Lemma sample_reaches_cmp (a b c : Z) (rest : list Z) :
  run sample_code_memory 15 (sample_after_add a b c rest)
  = Running (sample_after_cmp a b c (c =? 14) rest).
Proof.
  change 15%nat with (1 + (5 + (1 + 8)))%nat.
  rewrite (run_one _ _ _ _ (sample_throw_in_add a b c rest)).
  rewrite run_some by (vm_compute; eexists; reflexivity).
  rewrite (run_one _ _ _ _ (sample_ret_in_add a b c rest)).
  vm_compute. reflexivity.
Qed.

Lemma sample_ret_in_prevent (a b c : Z) (rest : list Z) :
  step sample_code_memory
    (state_after sample_code_memory 2 (sample_after_cmp a b c false rest))
  = Running (sample_in_prevent_defer a b c rest).
Proof.
  set (s := state_after sample_code_memory 2
              (sample_after_cmp a b c false rest)).
  apply (step_ret_own_defer sample_code_memory s
           (hd default_block (block_stack s)) (tl (block_stack s))
           (hd default_frame (function_stack s)) (tl (function_stack s))).
  - exists (VInt OP_RET). split; vm_compute; reflexivity.
  - vm_compute. reflexivity.
  - vm_compute. reflexivity.
  - vm_compute. reflexivity.
  - vm_compute. reflexivity.
Qed.

Lemma sample_returns_sum (a b c : Z) (rest : list Z) :
  exists s,
    run sample_code_memory 18 (sample_after_cmp a b c false rest) = Exited s /\
    exit_code s = VInt c /\
    stdout s
    = [ "enter number: "; "enter number: ";
        printed (VStr "inside add catch handler"); printed (VInt c);
        printed (VStr "inside add defer block");
        printed (VStr "inside prevent 14 defer block"); printed (VInt c) ] /\
    stdin s = rest /\ block_stack s = [] /\ data_stack s = [].
Proof.
  exists (state_after sample_code_memory 15
            (sample_in_prevent_defer a b c rest)).
  split.
  - change 18%nat with (2 + (1 + 15))%nat.
    rewrite run_some by (vm_compute; eexists; reflexivity).
    rewrite (run_one _ _ _ _ (sample_ret_in_prevent a b c rest)).
    apply run_exits. vm_compute. eexists. reflexivity.
  - repeat split; vm_compute; reflexivity.
Qed.

Lemma sample_throw_in_prevent (a b c : Z) (rest : list Z) :
  step sample_code_memory
    (state_after sample_code_memory 2 (sample_after_cmp a b c true rest))
  = Running (sample_thrown_prevent_defer a b c rest).
Proof.
  set (s := state_after sample_code_memory 2
              (sample_after_cmp a b c true rest)).
  rewrite (step_throw_own_block sample_code_memory s
             (hd default_block (block_stack s)) (tl (block_stack s))
             (hd default_frame (function_stack s)) (tl (function_stack s))).
  - vm_compute. reflexivity.
  - exists (VInt OP_THROW). split; vm_compute; reflexivity.
  - vm_compute. reflexivity.
  - vm_compute. reflexivity.
  - vm_compute. reflexivity.
  - vm_compute. reflexivity.
Qed.

Lemma sample_continue_to_main_defer (a b c : Z) (rest : list Z) :
  step sample_code_memory
    (state_after sample_code_memory 3 (sample_thrown_prevent_defer a b c rest))
  = Running (sample_thrown_main_defer a b c rest).
Proof.
  set (s := state_after sample_code_memory 3
              (sample_thrown_prevent_defer a b c rest)).
  rewrite (step_continue_exception sample_code_memory s
             (nth 0 (block_stack s) default_block)
             (nth 1 (block_stack s) default_block)
             (tl (tl (block_stack s)))
             [hd default_frame (function_stack s)] []).
  - vm_compute. reflexivity.
  - exists (VInt OP_DEFERCONTINUE). split; vm_compute; reflexivity.
  - vm_compute. reflexivity.
  - vm_compute. reflexivity.
  - vm_compute. reflexivity.
  - constructor; [| constructor]. vm_compute. reflexivity.
Qed.

Lemma sample_continue_to_main_catch (a b c : Z) (rest : list Z) :
  step sample_code_memory
    (state_after sample_code_memory 3 (sample_thrown_main_defer a b c rest))
  = Running (sample_thrown_main_catch a b c rest).
Proof.
  set (s := state_after sample_code_memory 3
              (sample_thrown_main_defer a b c rest)).
  rewrite (step_continue_exception sample_code_memory s
             (nth 0 (block_stack s) default_block)
             (nth 1 (block_stack s) default_block)
             (tl (tl (block_stack s))) [] []).
  - vm_compute. reflexivity.
  - exists (VInt OP_DEFERCONTINUE). split; vm_compute; reflexivity.
  - vm_compute. reflexivity.
  - vm_compute. reflexivity.
  - vm_compute. reflexivity.
  - constructor.
Qed.

Lemma sample_catches_fourteen (a b c : Z) (rest : list Z) :
  exists s,
    run sample_code_memory 18 (sample_after_cmp a b c true rest) = Exited s /\
    exit_code s = VInt 3333 /\
    stdout s
    = [ "enter number: "; "enter number: ";
        printed (VStr "inside add catch handler"); printed (VInt c);
        printed (VStr "inside add defer block");
        printed (VStr "inside prevent 14 defer block"); printed (VInt 42) ] /\
    stdin s = rest /\ block_stack s = [] /\ data_stack s = [].
Proof.
  exists (state_after sample_code_memory 7
            (sample_thrown_main_catch a b c rest)).
  split.
  - change 18%nat with (2 + (1 + (3 + (1 + (3 + (1 + 7))))))%nat.
    rewrite run_some by (vm_compute; eexists; reflexivity).
    rewrite (run_one _ _ _ _ (sample_throw_in_prevent a b c rest)).
    rewrite run_some by (vm_compute; eexists; reflexivity).
    rewrite (run_one _ _ _ _ (sample_continue_to_main_defer a b c rest)).
    rewrite run_some by (vm_compute; eexists; reflexivity).
    rewrite (run_one _ _ _ _ (sample_continue_to_main_catch a b c rest)).
    apply run_exits. vm_compute. eexists. reflexivity.
  - repeat split; vm_compute; reflexivity.
Qed.

(** X11.  The shipped program, for every pair of numbers the user enters
    that the interpreter can read and print (the numbers and their sum have
    at most 4300 digits): it exits with their sum, unless the sum is 14, in
    which case the throw of [prevent_14] is caught in [main] and the exit
    code is 3333.  Either way the catch handler and the defer handler of
    [add] and the defer handler of [prevent_14] have each printed their line
    once, in this order, followed by the line of the defer handler of [main]
    (the sum, or 42 when the call was cut short); both stacks are empty at
    exit and only the two numbers have been read. *)
Theorem sample_program_exit_code (a b : Z) (rest : list Z) :
  convertible a -> convertible b -> convertible (a + b) ->
  exists s,
    run sample_code_memory 54 (initial_state (a :: b :: rest)) = Exited s /\
    exit_code s = VInt (if a + b =? 14 then 3333 else a + b) /\
    stdout s
    = [ "enter number: "; "enter number: ";
        printed (VStr "inside add catch handler"); printed (VInt (a + b));
        printed (VStr "inside add defer block");
        printed (VStr "inside prevent 14 defer block");
        printed (VInt (if a + b =? 14 then 42 else a + b)) ] /\
    stdin s = rest /\ block_stack s = [] /\ data_stack s = [].
Proof.
  intros _ _ _.
  change 54%nat with (21 + (15 + 18))%nat.
  rewrite run_app, sample_reaches_add, run_app, sample_reaches_cmp.
  destruct (a + b =? 14).
  - apply sample_catches_fourteen.
  - apply sample_returns_sum.
Qed.

Lemma sample_program_exit_code_witness :
  exists s,
    run sample_code_memory 54 (initial_state [7; 7; 1]) = Exited s /\
    exit_code s = VInt 3333 /\
    stdout s
    = [ "enter number: "; "enter number: ";
        printed (VStr "inside add catch handler"); printed (VInt 14);
        printed (VStr "inside add defer block");
        printed (VStr "inside prevent 14 defer block");
        printed (VInt 42) ] /\
    stdin s = [1] /\ block_stack s = [] /\ data_stack s = [].
Proof.
  apply (sample_program_exit_code 7 7 [1]);
    unfold convertible; vm_compute; reflexivity.
Defined.
